(** * Event identity resolution and classification of phivolcs-eq-to-matrix

    A shallow embedding of the quake classification engine of the
    monitor (the last version of [main.go]: [Quake], [sameDateAndTimeHM],
    [isRevisedQuake], [getBulletinNumber], [mapEqToSlice],
    [determinePastQuakeThroughHeuristics], [magnitudeThresholdFor] and the
    body of the poll loop in [main]).

    Modelling choices:
    - strings are [String.string]; parsers work on [list ascii];
    - a Go [time.Time] is an instant counted in nanoseconds from
      0001-01-01 00:00:00 UTC (the zero [time.Time] is 0); [time.Parse]
      is modelled for the one layout the code uses;
    - a Go [map[string]Quake] is an association list with distinct keys,
      listed in the order in which [range] visits it (Go leaves that order
      unspecified, so a theorem over all lists covers every order);
    - a [float64] returned by [strconv.ParseFloat] is a rational, or an
      infinity, or NaN; the parser itself is a parameter, so every theorem
      holds for any parser; the trigonometry of the haversine formula is
      computed over the reals (rounding is not modelled). *)

From Stdlib Require Import String Ascii ZArith QArith List Bool Lia.
From Stdlib Require Import Sorted Permutation.
From Stdlib Require Import Reals Lra.
Import ListNotations.

Open Scope Z_scope.

(* ------------------------------------------------------------------ *)
(** ** Records *)

(** [type Quake struct] *)
Record Quake := mkQuake {
  DateTime  : string;
  Latitude  : string;
  Longitude : string;
  Depth     : string;
  Magnitude : string;
  Location  : string;
  Origin    : string;
  Bulletin  : string
}.

(** The zero value [Quake{}]. *)
Definition zeroQuake : Quake := mkQuake "" "" "" "" "" "" "" "".

(** A [map[string]Quake], in its [range] order. *)
Definition ledger := list (string * Quake).

(** [m[k]] with the comma-ok form. *)
Fixpoint mapLookup (k : string) (m : ledger) : option Quake :=
  match m with
  | [] => None
  | (k', v) :: m' => if String.eqb k k' then Some v else mapLookup k m'
  end.

(** [quakeLocationKey]: the fine key [DateTime + "|" + Location]. *)
Definition quakeLocationKey (q : Quake) : string :=
  DateTime q ++ "|" ++ Location q.

(** [quakeOriginKey]: the coarse key [DateTime + "|" + Origin]. *)
Definition quakeOriginKey (q : Quake) : string :=
  DateTime q ++ "|" ++ Origin q.

(** [quakeChanged] *)
Definition quakeChanged (a b : Quake) : bool :=
  negb (String.eqb (Magnitude a) (Magnitude b)) ||
  negb (String.eqb (Depth a) (Depth b)) ||
  negb (String.eqb (Location a) (Location b)) ||
  negb (String.eqb (Latitude a) (Latitude b)) ||
  negb (String.eqb (Longitude a) (Longitude b)) ||
  negb (String.eqb (Bulletin a) (Bulletin b)).

(* ------------------------------------------------------------------ *)
(** ** Characters *)

Definition isDigitC (c : ascii) : bool :=
  (48 <=? nat_of_ascii c)%nat && (nat_of_ascii c <=? 57)%nat.

Definition digitVal (c : ascii) : Z := Z.of_nat (nat_of_ascii c) - 48.

Definition ascii_eqb (a b : ascii) : bool :=
  if ascii_dec a b then true else false.

(** [cutspace]: drop leading spaces. *)
Fixpoint cutspace (s : list ascii) : list ascii :=
  match s with
  | c :: s' => if ascii_eqb c " " then cutspace s' else s
  | [] => []
  end.

(* ------------------------------------------------------------------ *)
(** ** [time.Parse] for [DATE_TIME_LAYOUT = "02 January 2006 - 03:04:05 PM"] *)

(** [getnum(s, fixed)] of package time. *)
Definition getnum (s : list ascii) (fixed : bool) : option (Z * list ascii) :=
  match s with
  | c0 :: rest =>
      if isDigitC c0 then
        match rest with
        | c1 :: rest' =>
            if isDigitC c1 then Some (digitVal c0 * 10 + digitVal c1, rest')
            else if fixed then None else Some (digitVal c0, rest)
        | [] => if fixed then None else Some (digitVal c0, rest)
        end
      else None
  | [] => None
  end.

(** [skip(value, prefix)] of package time: a space of the layout matches
    any run of spaces (also none) of the value.  [cut] records that the
    leading spaces of the remaining layout have already been cut. *)
Fixpoint skip_aux (cut : bool) (prefix value : list ascii) : option (list ascii) :=
  match prefix with
  | [] => Some value
  | c :: p' =>
      if ascii_eqb c " " then
        if cut then skip_aux true p' value
        else match value with
             | v :: _ => if ascii_eqb v " " then skip_aux true p' (cutspace value) else None
             | [] => skip_aux true p' []
             end
      else match value with
           | v :: value' => if ascii_eqb v c then skip_aux false p' value' else None
           | [] => None
           end
  end.

Definition skip (value prefix : list ascii) : option (list ascii) :=
  skip_aux false prefix value.

Definition longMonthNames : list string :=
  ["January"; "February"; "March"; "April"; "May"; "June"; "July";
   "August"; "September"; "October"; "November"; "December"]%string.

(** [match(s1, s2)] of package time: ASCII case-insensitive equality. *)
Fixpoint matchCI (s1 s2 : list ascii) : bool :=
  match s1, s2 with
  | [], [] => true
  | c1 :: s1', c2 :: s2' =>
      (ascii_eqb c1 c2 ||
       (let l1 := N.lor (N_of_ascii c1) 32 in
        let l2 := N.lor (N_of_ascii c2) 32 in
        N.eqb l1 l2 && (97 <=? l1)%N && (l1 <=? 122)%N)) && matchCI s1' s2'
  | _, _ => false
  end.

(** [lookup(tab, val)] of package time: index of the first name that
    prefixes [val], and the rest of [val]. *)
Fixpoint lookupName (i : Z) (tab : list string) (v : list ascii)
  : option (Z * list ascii) :=
  match tab with
  | [] => None
  | name :: tab' =>
      let n := list_ascii_of_string name in
      if (length n <=? length v)%nat && matchCI (firstn (length n) v) n
      then Some (i, skipn (length n) v)
      else lookupName (i + 1) tab' v
  end.

Fixpoint allDigits (s : list ascii) : bool :=
  match s with [] => true | c :: s' => isDigitC c && allDigits s' end.

Fixpoint digitsValue (acc : Z) (s : list ascii) : Z :=
  match s with [] => acc | c :: s' => digitsValue (acc * 10 + digitVal c) s' end.

(** [stdLongYear]: four bytes, the first a digit, read by [atoi]. *)
Definition parseYear (v : list ascii) : option (Z * list ascii) :=
  match v with
  | c :: _ =>
      if (4 <=? length v)%nat && isDigitC c && allDigits (firstn 4 v)
      then Some (digitsValue 0 (firstn 4 v), skipn 4 v) else None
  | [] => None
  end.

Fixpoint leadingDigits (s : list ascii) : list ascii :=
  match s with c :: s' => if isDigitC c then c :: leadingDigits s' else [] | [] => [] end.

(** The fractional-second special case of [stdZeroSecond]: a ['.'] or
    [','] followed by digits that the layout does not mention; they are
    read by [parseNanoseconds] (at most nine digits count). *)
Definition fracSeconds (v : list ascii) : Z * list ascii :=
  match v with
  | c :: ((d :: _) as rest) =>
      if (ascii_eqb c "." || ascii_eqb c ",") && isDigitC d then
        let ds := leadingDigits rest in
        let k := Nat.min (length ds) 9 in
        (digitsValue 0 (firstn k ds) * 10 ^ (9 - Z.of_nat k), skipn (length ds) rest)
      else (0, v)
  | _ => (0, v)
  end.

Definition isLeap (y : Z) : bool :=
  (Z.modulo y 4 =? 0) && (negb (Z.modulo y 100 =? 0) || (Z.modulo y 400 =? 0)).

(** [daysBefore] of package time (non-leap). *)
Definition daysBeforeMonth (m : Z) : Z :=
  match m with
  | 1 => 0 | 2 => 31 | 3 => 59 | 4 => 90 | 5 => 120 | 6 => 151
  | 7 => 181 | 8 => 212 | 9 => 243 | 10 => 273 | 11 => 304 | 12 => 334
  | _ => 365
  end.

Definition daysIn (m y : Z) : Z :=
  if (m =? 2) && isLeap y then 29 else daysBeforeMonth (m + 1) - daysBeforeMonth m.

(** Days from 0001-01-01 to the first of January of [y]. *)
Definition daysBeforeYear (y : Z) : Z :=
  365 * (y - 1) + (y - 1) / 4 - (y - 1) / 100 + (y - 1) / 400.

(** [time.Date(year, month, day, hour, min, sec, nsec, time.UTC)] as an
    instant, with the month normalised into [1..12] and the day counted
    from the first of the month (as [Date] does for out-of-range days). *)
Definition dateNs (y mo d h mi s ns : Z) : Z :=
  let y' := y + (mo - 1) / 12 in
  let m' := (mo - 1) mod 12 + 1 in
  let days := daysBeforeYear y' + daysBeforeMonth m'
              + (if isLeap y' && (3 <=? m') then 1 else 0) + (d - 1) in
  (((days * 24 + h) * 60 + mi) * 60 + s) * 1000000000 + ns.

(** [time.Parse(DATE_TIME_LAYOUT, v)]: [None] for an error. *)
Definition parseTimeL (v0 : list ascii) : option Z :=
  match getnum v0 true with None => None | Some (day, v1) =>
  match skip v1 [" "%char] with None => None | Some v2 =>
  match lookupName 0 longMonthNames v2 with None => None | Some (mon, v3) =>
  match skip v3 [" "%char] with None => None | Some v4 =>
  match parseYear v4 with None => None | Some (year, v5) =>
  match skip v5 [" "; "-"; " "]%char with None => None | Some v6 =>
  match getnum v6 true with None => None | Some (hour, v7) =>
  if (hour <? 0) || (12 <? hour) then None else
  match skip v7 [":"%char] with None => None | Some v8 =>
  match getnum v8 true with None => None | Some (min, v9) =>
  if (min <? 0) || (60 <=? min) then None else
  match skip v9 [":"%char] with None => None | Some v10 =>
  match getnum v10 true with None => None | Some (sec, v11) =>
  if (sec <? 0) || (60 <=? sec) then None else
  let '(nsec, v12) := fracSeconds v11 in
  match skip v12 [" "%char] with None => None | Some v13 =>
  match v13 with
  | p1 :: p2 :: v14 =>
      let pm := ascii_eqb p1 "P" && ascii_eqb p2 "M" in
      let am := ascii_eqb p1 "A" && ascii_eqb p2 "M" in
      if negb (pm || am) then None else
      match v14 with
      | _ :: _ => None
      | [] =>
          let hour' := if pm && (hour <? 12) then hour + 12
                       else if am && (hour =? 12) then 0 else hour in
          let month := mon + 1 in
          if (day <? 1) || (daysIn month year <? day) then None
          else Some (dateNs year month day hour' min sec nsec)
      end
  | _ => None
  end end end end end end end end end end end end end.

Definition parseTime (s : string) : option Z := parseTimeL (list_ascii_of_string s).

(* ------------------------------------------------------------------ *)
(** ** Temporal Key Matcher *)

Definition minInt64 : Z := - 2 ^ 63.
Definition maxInt64 : Z := 2 ^ 63 - 1.

(** Two's-complement wrap-around of a Go [int64]. *)
Definition wrapInt64 (z : Z) : Z := (z + 2 ^ 63) mod 2 ^ 64 - 2 ^ 63.

(** [time.Minute] in nanoseconds. *)
Definition Minute : Z := 60 * 1000000000.

(** [t.Sub(u)]: the exact difference when it fits a [Duration], else the
    saturated bound. *)
Definition timeSub (t u : Z) : Z :=
  let d := t - u in
  if (minInt64 <=? d) && (d <=? maxInt64) then d
  else if d <? 0 then minInt64 else maxInt64.

(** [sameDateAndTimeHMWithDelta(t1, t2, delta)] *)
Definition sameDateAndTimeHMWithDelta (t1 t2 : string) (delta : Z) : bool :=
  match parseTime t1, parseTime t2 with
  | Some d1, Some d2 =>
      let diff := timeSub d1 d2 in
      let diff := if diff <? 0 then wrapInt64 (- diff) else diff in
      diff <=? wrapInt64 (delta * Minute)
  | _, _ => false
  end.

(** [sameDateAndTimeHM(t1, t2)] *)
Definition sameDateAndTimeHM (t1 t2 : string) : bool :=
  sameDateAndTimeHMWithDelta t1 t2 0.

(* ------------------------------------------------------------------ *)
(** ** Bulletin numbers *)

(** Does the (reversed) [s] start with the (reversed) [p]? *)
Fixpoint startsWith (p s : list ascii) : bool :=
  match p, s with
  | [], _ => true
  | c :: p', d :: s' => ascii_eqb c d && startsWith p' s'
  | _ :: _, [] => false
  end.

(** The [_B(\d)] part of the regexp, on the reversed URL. *)
Definition digitAfterB (r : list ascii) : Z * bool :=
  match r with
  | d :: b :: u :: _ =>
      if isDigitC d && ascii_eqb b "B" && ascii_eqb u "_"
      then (digitVal d, true) else (0, false)
  | _ => (0, false)
  end.

(** [getBulletinNumber(url)]: the regexp [_B(\d)F?\.html$] read from the
    end of [url]; the captured single digit is converted by [Atoi]. *)
Definition getBulletinNumber (url : string) : Z * bool :=
  let r := rev (list_ascii_of_string url) in
  let html := rev (list_ascii_of_string ".html") in
  if startsWith html r then
    let r1 := skipn (length html) r in
    let r2 := match r1 with
              | c :: r' => if ascii_eqb c "F" then r' else r1
              | [] => r1
              end in
    digitAfterB r2
  else (0, false).

(** [isRevisedQuake(currentQuake, pastQ)] *)
Definition isRevisedQuake (currentQuake pastQ : Quake) : bool :=
  let '(currNum, ok1) := getBulletinNumber (Bulletin currentQuake) in
  let '(pastNum, ok2) := getBulletinNumber (Bulletin pastQ) in
  if negb ok1 || negb ok2 then false
  else sameDateAndTimeHM (DateTime currentQuake) (DateTime pastQ) &&
       String.eqb (Origin pastQ) (Origin currentQuake) &&
       (pastNum <? currNum).

(** [SIMILAR_Q_MIN_DELTA_THRESH] *)
Definition SIMILAR_Q_MIN_DELTA_THRESH : Z := 3.

(** [filterQuakesByDateTime(quakes, target)] *)
Definition filterQuakesByDateTime (quakes : list Quake) (target : string) : list Quake :=
  filter (fun q => sameDateAndTimeHMWithDelta (DateTime q) target SIMILAR_Q_MIN_DELTA_THRESH)
         quakes.

(** [isKnownBulletin(currentQuake, pastQ)] *)
Definition isKnownBulletin (currentQuake pastQ : Quake) : bool :=
  sameDateAndTimeHM (DateTime currentQuake) (DateTime pastQ) &&
  String.eqb (Bulletin currentQuake) (Bulletin pastQ).

(** [updatedQuakeHasBeenPosted(postedQuakes, currentQuake)]: the loop
    breaks at the first known bulletin. *)
Definition updatedQuakeHasBeenPosted (postedQuakes : ledger) (currentQuake : Quake) : bool :=
  existsb (fun kv => isKnownBulletin currentQuake (snd kv)) postedQuakes.

(* ------------------------------------------------------------------ *)
(** ** Retention and ordering: [mapEqToSlice] *)

(** The civil fields of [time.Now()] (the process runs in UTC). *)
Record civil := mkCivil {
  cYear : Z; cMonth : Z; cDay : Z; cHour : Z; cMin : Z; cSec : Z; cNsec : Z
}.

(** [now.AddDate(0, -2, 0)] as an instant. *)
Definition twoMonthsBefore (now : civil) : Z :=
  dateNs (cYear now) (cMonth now - 2) (cDay now) (cHour now) (cMin now)
         (cSec now) (cNsec now).

(** The [range] loop of [mapEqToSlice]: an entry whose time does not
    parse is skipped (it stays in the map); an entry before the cutoff
    is deleted from the map; any other entry is appended to the slice. *)
Fixpoint pruneEntries (cutoff : Z) (m : ledger) : ledger * list Quake :=
  match m with
  | [] => ([], [])
  | (k, v) :: m' =>
      let '(mr, s) := pruneEntries cutoff m' in
      match parseTime (DateTime v) with
      | None => ((k, v) :: mr, s)
      | Some t => if t <? cutoff then (mr, s) else ((k, v) :: mr, v :: s)
      end
  end.

(** [time.Parse] with the error dropped: the zero time on failure. *)
Definition parsedOrZero (q : Quake) : Z :=
  match parseTime (DateTime q) with Some t => t | None => 0 end.

(** The [less] function of the [sort.Slice] call: [ti.After(tj)]. *)
Definition after (a b : Quake) : bool := parsedOrZero b <? parsedOrZero a.

(** [sort.Slice(s, less)]: an insertion sort (the order of ties, which
    [sort.Slice] leaves unspecified, is fixed to the input order). *)
Fixpoint insertQuake (x : Quake) (l : list Quake) : list Quake :=
  match l with
  | [] => [x]
  | y :: l' => if after x y then x :: l else y :: insertQuake x l'
  end.

Definition sortSlice (l : list Quake) : list Quake := fold_right insertQuake [] l.

(** [mapEqToSlice(m)]: the map after the deletions and the returned slice. *)
Definition mapEqToSlice (now : civil) (m : ledger) : ledger * list Quake :=
  let '(m', s) := pruneEntries (twoMonthsBefore now) m in
  (m', sortSlice s).

(* ------------------------------------------------------------------ *)
(** ** Fuzzy Address Matcher *)

(** Modelled from the spec: [AddressSimilarity], which is not among the
    source files.  §4.2: lower-case, punctuation to whitespace, split on
    whitespace, expand the abbreviation table, concatenate the tokens;
    the score is [(1 - levenshtein(a,b)/max(len(a),len(b))) * 100], and
    100 when both normalised strings are empty. *)
Definition lowerC (c : ascii) : ascii :=
  let n := nat_of_ascii c in
  if (65 <=? n)%nat && (n <=? 90)%nat then ascii_of_nat (n + 32) else c.

Definition isPunctC (c : ascii) : bool :=
  let n := nat_of_ascii c in
  ((33 <=? n)%nat && (n <=? 47)%nat) || ((58 <=? n)%nat && (n <=? 64)%nat) ||
  ((91 <=? n)%nat && (n <=? 96)%nat) || ((123 <=? n)%nat && (n <=? 126)%nat).

Definition isSpaceC (c : ascii) : bool :=
  let n := nat_of_ascii c in (n =? 32)%nat || ((9 <=? n)%nat && (n <=? 13)%nat).

(** Split on runs of whitespace; [cur] is the token being read. *)
Fixpoint tokens (cur : list ascii) (s : list ascii) : list (list ascii) :=
  match s with
  | [] => match cur with [] => [] | _ => [rev cur] end
  | c :: s' =>
      if isSpaceC c then
        match cur with [] => tokens [] s' | _ => rev cur :: tokens [] s' end
      else tokens (c :: cur) s'
  end.

Definition abbreviations : list (string * string) :=
  [("st", "street"); ("brgy", "barangay"); ("blk", "block"); ("ph", "phase");
   ("ave", "avenue"); ("rd", "road"); ("subd", "subdivision")]%string.

Definition expandToken (t : list ascii) : list ascii :=
  match find (fun ab => String.eqb (string_of_list_ascii t) (fst ab)) abbreviations with
  | Some ab => list_ascii_of_string (snd ab)
  | None => t
  end.

Definition normalizeAddress (s : string) : list ascii :=
  let cleaned := map (fun c => if isPunctC c then " "%char else lowerC c)
                     (list_ascii_of_string s) in
  concat (map expandToken (tokens [] cleaned)).

(** Levenshtein distance. *)
Fixpoint levenshtein (a : list ascii) : list ascii -> nat :=
  match a with
  | [] => fun b => length b
  | ca :: a' =>
      fix lev_b (b : list ascii) : nat :=
        match b with
        | [] => length a
        | cb :: b' =>
            Nat.min (Nat.min (S (levenshtein a' b)) (S (lev_b b')))
                    (levenshtein a' b' + (if ascii_dec ca cb then 0 else 1))
        end
  end.

(** Modelled from the spec: the score of [AddressSimilarity] (§4.2). *)
Definition AddressSimilarity (a b : string) : Q :=
  let na := normalizeAddress a in
  let nb := normalizeAddress b in
  let mx := Nat.max (length na) (length nb) in
  if (mx =? 0)%nat then 100
  else (1 - inject_Z (Z.of_nat (levenshtein na nb)) / inject_Z (Z.of_nat mx)) * 100.

(* ------------------------------------------------------------------ *)
(** ** Identity Resolver *)

(** [SIMILAR_Q_ORIGIN_THRESH] *)
Definition SIMILAR_Q_ORIGIN_THRESH : Q := 60.

(** The first loop of [determinePastQuakeThroughHeuristics] (step 2a). *)
Fixpoint firstRevised (currentQuake : Quake) (m : ledger) : option Quake :=
  match m with
  | [] => None
  | (_, pastQ) :: m' =>
      if isRevisedQuake currentQuake pastQ then Some pastQ
      else firstRevised currentQuake m'
  end.

(** The second loop of [determinePastQuakeThroughHeuristics] (step 2b). *)
Fixpoint firstSimilar (currentQuake : Quake) (l : list Quake) : option Quake :=
  match l with
  | [] => None
  | pastQ :: l' =>
      if Qle_bool SIMILAR_Q_ORIGIN_THRESH
                  (AddressSimilarity (Origin currentQuake) (Origin pastQ)) &&
         (fst (getBulletinNumber (Bulletin pastQ)) <?
          fst (getBulletinNumber (Bulletin currentQuake)))
      then Some pastQ
      else firstSimilar currentQuake l'
  end.

(** [determinePastQuakeThroughHeuristics(lastFetchQuakes, currentQuake)]:
    the ledger after [mapEqToSlice] has pruned it, and the pair
    [(previousQuake, updateExists)].  Both loops run; a match of the second
    loop overwrites one of the first. *)
Definition determinePastQuakeThroughHeuristics (now : civil) (lastFetchQuakes : ledger)
    (currentQuake : Quake) : ledger * (Quake * bool) :=
  let found := firstRevised currentQuake lastFetchQuakes in
  let '(m', s) := mapEqToSlice now lastFetchQuakes in
  let similarlyTimedQuakes := filterQuakesByDateTime s (DateTime currentQuake) in
  (m', match firstSimilar currentQuake similarlyTimedQuakes with
       | Some pastQ => (pastQ, true)
       | None => match found with
                 | Some pastQ => (pastQ, true)
                 | None => (zeroQuake, false)
                 end
       end).

(** The guard of the heuristic in [main]: [bulletinNo != 1]. *)
Definition heuristicsEligible (currentQuake : Quake) : bool :=
  negb (fst (getBulletinNumber (Bulletin currentQuake)) =? 1).

(** The first part of the loop body of [main]: the exact lookup by the
    coarse key, then the heuristic. *)
Definition resolvePrevious (now : civil) (lastFetchQuakes : ledger) (currentQuake : Quake)
    : ledger * (Quake * bool) :=
  match mapLookup (quakeOriginKey currentQuake) lastFetchQuakes with
  | Some previousQuake => (lastFetchQuakes, (previousQuake, true))
  | None =>
      if heuristicsEligible currentQuake
      then determinePastQuakeThroughHeuristics now lastFetchQuakes currentQuake
      else (lastFetchQuakes, (zeroQuake, false))
  end.

(* ------------------------------------------------------------------ *)
(** ** Geo-Threshold Policy and the Classification Engine *)

(** A Go [float64] as the code can see it. *)
Inductive float64 :=
| Finite (q : Q)
| PosInf
| NegInf
| NaN.

(** [a >= b] on [float64] (false whenever NaN is involved). *)
Definition fge (a b : float64) : bool :=
  match a, b with
  | NaN, _ | _, NaN => false
  | PosInf, _ => true
  | _, PosInf => false
  | NegInf, NegInf => true
  | NegInf, _ => false
  | _, NegInf => true
  | Finite x, Finite y => Qle_bool y x
  end.

(** [GLOBAL_MAG_THRESH] and [LOCAL_MAG_THRESH] *)
Definition GLOBAL_MAG_THRESH : float64 := Finite (45 # 10).
Definition LOCAL_MAG_THRESH : float64 := Finite (40 # 10).

(** [math.Atan2(y, x)] on the reals. *)
Definition atan2 (y x : R) : R :=
  if Rlt_dec 0 x then atan (y / x)
  else if Rlt_dec x 0 then
    (if Rle_dec 0 y then atan (y / x) + PI else atan (y / x) - PI)
  else if Rlt_dec 0 y then PI / 2
  else if Rlt_dec y 0 then - (PI / 2)
  else 0.

(** [distanceKm(lat1, lon1, lat2, lon2)]: the haversine formula. *)
Definition distanceKm (lat1 lon1 lat2 lon2 : R) : R :=
  let earthRadiusKm := 6371%R in
  let dLat := ((lat2 - lat1) * PI / 180)%R in
  let dLon := ((lon2 - lon1) * PI / 180)%R in
  let a := (sin (dLat / 2) * sin (dLat / 2) +
            cos (lat1 * PI / 180) * cos (lat2 * PI / 180) *
            sin (dLon / 2) * sin (dLon / 2))%R in
  (earthRadiusKm * 2 * atan2 (sqrt a) (sqrt (1 - a)))%R.

(** A finite [float64] as a real; an infinity or NaN makes the
    distance NaN. *)
Definition floatToR (f : float64) : option R :=
  match f with Finite q => Some (Q2R q) | _ => None end.

(** What the classification engine reads from its environment. *)
Section Engine.

(** [strconv.ParseFloat(s, 64)]: the value Go returns and whether [err]
    is nil (on a syntax error Go returns 0, on a range error an infinity). *)
Variable ParseFloat : string -> float64 * bool.

(** [refPointLat], [refPointLon], [refRadiusKm] (from the environment). *)
Variables refPointLat refPointLon refRadiusKm : R.

(** [magnitudeThresholdFor(latStr, lonStr)] *)
Definition magnitudeThresholdFor (latStr lonStr : string) : float64 :=
  let '(lat, ok1) := ParseFloat latStr in
  let '(lon, ok2) := ParseFloat lonStr in
  if negb ok1 || negb ok2 then GLOBAL_MAG_THRESH
  else match floatToR lat, floatToR lon with
       | Some la, Some lo =>
           if Rle_dec (distanceKm la lo refPointLat refPointLon) refRadiusKm
           then LOCAL_MAG_THRESH else GLOBAL_MAG_THRESH
       | _, _ => GLOBAL_MAG_THRESH
       end.

(** [parseMag(m)]: the error is dropped. *)
Definition parseMag (m : string) : float64 := fst (ParseFloat m).

(** [isCurrentAndPastQSignificant(currentQuake, previousQuake)] *)
Definition isCurrentAndPastQSignificant (currentQuake previousQuake : Quake) : bool :=
  let thresholdForUpdatedQ := magnitudeThresholdFor (Latitude currentQuake) (Longitude currentQuake) in
  let thresholdForOldQ := magnitudeThresholdFor (Latitude previousQuake) (Longitude previousQuake) in
  fge (parseMag (Magnitude currentQuake)) thresholdForUpdatedQ ||
  fge (parseMag (Magnitude previousQuake)) thresholdForOldQ.

(** What the loop body of [main] does with one scraped quake: append it to
    [changed], append it with its previous snapshot to [updated], or
    neither. *)
Inductive Outcome :=
| NewQuake
| UpdatedQuake (old : Quake)
| NotPosted.

(** The loop body of [main] for [currentQuake]: the (possibly pruned)
    last-fetch map and the outcome. *)
Definition classifyQuake (now : civil) (lastFetchQuakes postedQuakes : ledger)
    (currentQuake : Quake) : ledger * Outcome :=
  let '(lf, (previousQuake, updateExists)) := resolvePrevious now lastFetchQuakes currentQuake in
  (lf,
   if negb updateExists then
     match mapLookup (quakeLocationKey currentQuake) postedQuakes with
     | Some _ => NotPosted
     | None =>
         let '(magVal, ok) := ParseFloat (Magnitude currentQuake) in
         let threshold := magnitudeThresholdFor (Latitude currentQuake) (Longitude currentQuake) in
         if ok && fge magVal threshold then NewQuake else NotPosted
     end
   else if quakeChanged previousQuake currentQuake &&
           negb (updatedQuakeHasBeenPosted postedQuakes currentQuake) &&
           isCurrentAndPastQSignificant currentQuake previousQuake
   then UpdatedQuake previousQuake
   else NotPosted).

(** The state threaded through the loop over [latestQuakes]. *)
Record loopState := mkLoopState {
  lastFetch : ledger;
  changed : list Quake;
  updated : list (Quake * Quake);
  postedQuakesToSave : list Quake
}.

Definition processQuake (now : civil) (postedQuakes : ledger) (st : loopState)
    (currentQuake : Quake) : loopState :=
  let '(lf, o) := classifyQuake now (lastFetch st) postedQuakes currentQuake in
  match o with
  | NewQuake =>
      mkLoopState lf (changed st ++ [currentQuake]) (updated st)
                  (postedQuakesToSave st ++ [currentQuake])
  | UpdatedQuake old =>
      mkLoopState lf (changed st) (updated st ++ [(currentQuake, old)])
                  (postedQuakesToSave st ++ [currentQuake])
  | NotPosted => mkLoopState lf (changed st) (updated st) (postedQuakesToSave st)
  end.

(** The loop over [latestQuakes] of one poll cycle. *)
Definition classifyAll (now : civil) (lastFetchQuakes postedQuakes : ledger)
    (latestQuakes : list Quake) : loopState :=
  fold_left (processQuake now postedQuakes) latestQuakes
            (mkLoopState lastFetchQuakes [] [] []).

End Engine.

(** An instance of [ParseFloat] for plain decimal literals
    ([-]digits[.digits]), used to run the examples. *)
Fixpoint parseDigits (acc : Z) (n : nat) (s : list ascii) : option (Z * nat) :=
  match s with
  | [] => Some (acc, n)
  | c :: s' => if isDigitC c then parseDigits (acc * 10 + digitVal c) (S n) s' else None
  end.

Definition parseDecimalL (s : list ascii) : float64 * bool :=
  let '(neg, s1) := match s with
                    | c :: s' => if ascii_eqb c "-" then (true, s') else (false, s)
                    | [] => (false, s)
                    end in
  let ip := leadingDigits s1 in
  let rest := skipn (length ip) s1 in
  let fr := match rest with
            | c :: ds => if ascii_eqb c "." then parseDigits 0 0 ds else None
            | [] => Some (0, 0%nat)
            end in
  match ip, fr with
  | _ :: _, Some (f, k) =>
      let v := (digitsValue 0 ip * 10 ^ Z.of_nat k + f) in
      (Finite (Qmake (if neg then - v else v) (Pos.of_nat (10 ^ k))), true)
  | _, _ => (Finite 0, false)
  end.

Definition parseDecimal (s : string) : float64 * bool := parseDecimalL (list_ascii_of_string s).

(** The defaults [DEFAULT_REF_POINT_LAT], [DEFAULT_REF_POINT_LON],
    [DEFAULT_REF_RADIUS_KM]. *)
Definition DEFAULT_REF_POINT_LAT : R := Q2R (1032 # 100).
Definition DEFAULT_REF_POINT_LON : R := Q2R (12390 # 100).
Definition DEFAULT_REF_RADIUS_KM : R := 110%R.

(* ------------------------------------------------------------------ *)
(** ** Bulletin URL timestamps: [extractDateTimeFromURL] *)

(** The digit character of [0 <= k <= 9]. *)
Definition digitChar (k : Z) : ascii := ascii_of_nat (48 + Z.to_nat k).

(** The decimal digits of [u >= 0], least significant first. *)
Fixpoint decimalRev (fuel : nat) (u : Z) : list ascii :=
  match fuel with
  | O => []
  | S f => digitChar (u mod 10) :: (if u <? 10 then [] else decimalRev f (u / 10))
  end.

(** [appendInt(b, x, width)] of package time, with its fast paths for
    two- and four-digit fields. *)
Definition appendInt (x : Z) (width : nat) : list ascii :=
  let sign := if x <? 0 then ["-"%char] else [] in
  let u := Z.abs x in
  sign ++
  (if (width =? 2)%nat && (u <? 100) then [digitChar (u / 10); digitChar (u mod 10)]
   else if (width =? 4)%nat && (u <? 10000) then
     [digitChar (u / 1000); digitChar (u / 100 mod 10);
      digitChar (u / 10 mod 10); digitChar (u mod 10)]
   else let ds := rev (decimalRev 20 u) in
        repeat "0"%char (width - length ds) ++ ds).

(** [Month.String()] for a month in [1..12]. *)
Definition monthName (mo : Z) : string := nth (Z.to_nat (mo - 1)) longMonthNames ""%string.

(** [t.Format(DATE_TIME_LAYOUT)] for a time with the given civil fields. *)
Definition formatDT (y mo d h mi s : Z) : list ascii :=
  let hr := (if h mod 12 =? 0 then 12 else h mod 12)%Z in
  appendInt d 2 ++ [" "%char] ++ list_ascii_of_string (monthName mo) ++ [" "%char] ++
  appendInt y 4 ++ [" "%char; "-"%char; " "%char] ++ appendInt hr 2 ++ [":"%char] ++
  appendInt mi 2 ++ [":"%char] ++ appendInt s 2 ++ [" "%char] ++
  (if 12 <=? h then ["P"%char; "M"%char] else ["A"%char; "M"%char]).

(** The regexp [(\d{4})_(\d{2})(\d{2})_(\d{6})] tried at the start of [l]:
    the six numbers year, month, day, hour, minute, second. *)
Definition stampAt (l : list ascii) : option (Z * Z * Z * Z * Z * Z) :=
  match l with
  | y1 :: y2 :: y3 :: y4 :: u1 :: m1 :: m2 :: d1 :: d2 :: u2 ::
    h1 :: h2 :: i1 :: i2 :: s1 :: s2 :: _ =>
      if allDigits [y1; y2; y3; y4; m1; m2; d1; d2; h1; h2; i1; i2; s1; s2] &&
         ascii_eqb u1 "_" && ascii_eqb u2 "_"
      then Some (digitsValue 0 [y1; y2; y3; y4], digitsValue 0 [m1; m2],
                 digitsValue 0 [d1; d2], digitsValue 0 [h1; h2],
                 digitsValue 0 [i1; i2], digitsValue 0 [s1; s2])
      else None
  | _ => None
  end.

(** [re.FindStringSubmatch(url)]: the leftmost match. *)
Fixpoint findStamp (l : list ascii) : option (Z * Z * Z * Z * Z * Z) :=
  match l with
  | [] => None
  | _ :: l' => match stampAt l with Some g => Some g | None => findStamp l' end
  end.

(** [time.Parse("2006-01-02 15:04:05", ...)] of the [Sprintf] of the
    matched digit groups: the groups are read back as written, and the
    parse fails on a month, day, hour, minute or second out of range. *)
Definition validStamp (y mo d h mi s : Z) : bool :=
  (1 <=? mo) && (mo <=? 12) && (1 <=? d) && (d <=? daysIn mo y) &&
  (h <? 24) && (mi <? 60) && (s <? 60).

(** [t.Add(8 * time.Hour)] on a time of a valid date, read back as civil
    fields: the clock moves eight hours on, carrying into the day, the
    month and the year. *)
Definition addHours8 (y mo d h : Z) : Z * Z * Z * Z :=
  if h + 8 <? 24 then (y, mo, d, h + 8)
  else if d + 1 <=? daysIn mo y then (y, mo, d + 1, h + 8 - 24)
  else if mo <? 12 then (y, mo + 1, 1, h + 8 - 24)
  else (y + 1, 1, 1, h + 8 - 24).

(** [extractDateTimeFromURL(url)]: [None] for an error. *)
Definition extractDateTimeFromURL (url : string) : option string :=
  match findStamp (list_ascii_of_string url) with
  | None => None
  | Some (y, mo, d, h, mi, s) =>
      if validStamp y mo d h mi s then
        let '(y', mo', d', h') := addHours8 y mo d h in
        Some (string_of_list_ascii (formatDT y' mo' d' h' mi s))
      else None
  end.

(* ------------------------------------------------------------------ *)
(** ** Table cells: [strings.TrimSpace] and [normalizeDateTime] *)

Definition bytes (l : list nat) : list ascii := map ascii_of_nat l.

(** The UTF-8 encodings of the runes for which [unicode.IsSpace] holds:
    ['\t'], ['\n'], ['\v'], ['\f'], ['\r'], [' '], U+0085, U+00A0,
    U+1680, U+2000 to U+200A, U+2028, U+2029, U+202F, U+205F, U+3000. *)
Definition spaceEncodings : list (list ascii) :=
  map (fun n => bytes [n]) [9; 10; 11; 12; 13; 32]%nat ++
  [bytes [194; 133]; bytes [194; 160]; bytes [225; 154; 128]]%nat ++
  map (fun n => bytes [226; 128; n]%nat) (seq 128 11) ++
  [bytes [226; 128; 168]; bytes [226; 128; 169]; bytes [226; 128; 175];
   bytes [226; 129; 159]; bytes [227; 128; 128]]%nat.

(** Strip leading encodings of [encs]; each step removes at least one
    byte, so [length l] steps suffice. *)
Fixpoint trimLeftWith (encs : list (list ascii)) (fuel : nat) (l : list ascii) : list ascii :=
  match fuel with
  | O => l
  | S f =>
      match find (fun e => startsWith e l) encs with
      | Some e => trimLeftWith encs f (skipn (length e) l)
      | None => l
      end
  end.

(** [strings.TrimSpace(s)]: [TrimFunc(s, unicode.IsSpace)] (its ASCII
    fast path gives the same result).  Decoding UTF-8 from the front or
    from the back, a rune is a space exactly when its bytes are one of
    [spaceEncodings] (an invalid byte decodes to U+FFFD, not a space), so
    trimming strips whole encodings at both ends. *)
Definition TrimSpace (l : list ascii) : list ascii :=
  let l1 := trimLeftWith spaceEncodings (length l) l in
  rev (trimLeftWith (map (@rev ascii) spaceEncodings) (length l1) (rev l1)).

(** [regexp.MatchString(` - \d{1,2}:\d{2} [AP]M$`, date)], read on the
    reversed [date]. *)
Definition endsWithHM (r : list ascii) : bool :=
  match r with
  | m :: p :: sp :: m2 :: m1 :: colon :: h2 :: rest =>
      ascii_eqb m "M" && (ascii_eqb p "A" || ascii_eqb p "P") && ascii_eqb sp " " &&
      isDigitC m2 && isDigitC m1 && ascii_eqb colon ":" && isDigitC h2 &&
      (startsWith [" "; "-"; " "]%char rest ||
       match rest with
       | h1 :: rest' => isDigitC h1 && startsWith [" "; "-"; " "]%char rest'
       | [] => false
       end)
  | _ => false
  end.

(** [strings.Replace(s, old, new, 1)]: the first occurrence of [old]. *)
Fixpoint replaceFirst (old new l : list ascii) : list ascii :=
  if startsWith old l then new ++ skipn (length old) l
  else match l with
       | [] => []
       | c :: l' => c :: replaceFirst old new l'
       end.

(** [normalizeDateTime(date)] *)
Definition normalizeDateTime (date : string) : string :=
  let d := TrimSpace (list_ascii_of_string date) in
  if endsWithHM (rev d) then
    string_of_list_ascii
      (replaceFirst (list_ascii_of_string " PM") (list_ascii_of_string ":00 PM")
        (replaceFirst (list_ascii_of_string " AM") (list_ascii_of_string ":00 AM") d))
  else string_of_list_ascii d.

(** A time as the PHIVOLCS table shows it, to the minute:
    [t.Format("02 January 2006 - 03:04 PM")]. *)
Definition tableTime (y mo d h mi : Z) : list ascii :=
  let hr := (if h mod 12 =? 0 then 12 else h mod 12)%Z in
  appendInt d 2 ++ [" "%char] ++ list_ascii_of_string (monthName mo) ++ [" "%char] ++
  appendInt y 4 ++ [" "%char; "-"%char; " "%char] ++ appendInt hr 2 ++ [":"%char] ++
  appendInt mi 2 ++ [" "%char] ++
  (if 12 <=? h then ["P"%char; "M"%char] else ["A"%char; "M"%char]).

(* ------------------------------------------------------------------ *)
(** ** Table rows: [parseFirstN] *)

(** [strings.Fields(s)]: the maximal runs of bytes in which no space
    rune starts; [cur] is the current field, reversed.  Each step consumes
    a byte, so [S (length l)] steps suffice. *)
Fixpoint fieldsFrom (fuel : nat) (cur : list ascii) (l : list ascii) : list (list ascii) :=
  match fuel with
  | O => []
  | S f =>
      match l with
      | [] => match cur with [] => [] | _ :: _ => [rev cur] end
      | c :: l' =>
          match find (fun e => startsWith e l) spaceEncodings with
          | Some e =>
              match cur with [] => [] | _ :: _ => [rev cur] end ++
              fieldsFrom f [] (skipn (length e) l)
          | None => fieldsFrom f (c :: cur) l'
          end
      end
  end.

Definition Fields (l : list ascii) : list (list ascii) := fieldsFrom (S (length l)) [] l.

(** [strings.Join(elems, sep)] *)
Fixpoint Join (elems : list (list ascii)) (sep : list ascii) : list ascii :=
  match elems with
  | [] => []
  | [e] => e
  | e :: es => e ++ sep ++ Join es sep
  end.

(** [strings.Index(s, sub)], [None] for -1. *)
Fixpoint indexOf (sub l : list ascii) : option nat :=
  if startsWith sub l then Some O
  else match l with
       | [] => None
       | _ :: l' => option_map S (indexOf sub l')
       end.

(** [extractOrigin(fullLoc)] *)
Definition extractOrigin (fullLoc : list ascii) : list ascii :=
  match indexOf (list_ascii_of_string "of ") fullLoc with
  | Some start => TrimSpace (skipn (start + 3) fullLoc)
  | None => fullLoc
  end.

Definition PHIVOLCS_BASE_URL : string := "https://earthquake.phivolcs.dost.gov.ph".

(** [strings.ReplaceAll(link, "\", "/")]: a one-byte ASCII pattern,
    replaced byte by byte. *)
Definition slashes (link : list ascii) : list ascii :=
  map (fun c => if ascii_eqb c (ascii_of_nat 92) then "/"%char else c) link.

(** One row of the quake table: the texts of its [td] cells, and the
    [href] of the first link in its first cell ("" when there is none). *)
Record row := mkRow { cells : list string; href : string }.

Definition cellText (r : row) (k : nat) : list ascii :=
  list_ascii_of_string (nth k (cells r) ""%string).

(** The body of the [EachWithBreak] callback for a row with at least six
    cells. *)
Definition parseRow (r : row) : Quake :=
  let link := href r in
  let date := normalizeDateTime (string_of_list_ascii (TrimSpace (cellText r 0))) in
  let lat := string_of_list_ascii (TrimSpace (cellText r 1)) in
  let lon := string_of_list_ascii (TrimSpace (cellText r 2)) in
  let depth := string_of_list_ascii (TrimSpace (cellText r 3)) in
  let mag := string_of_list_ascii (TrimSpace (cellText r 4)) in
  let loc := TrimSpace (Join (Fields (cellText r 5)) [" "%char]) in
  let origin := extractOrigin loc in
  let bulletin :=
    if String.eqb link "" then ""%string
    else (PHIVOLCS_BASE_URL ++ "/" ++ string_of_list_ascii (slashes (list_ascii_of_string link)))%string in
  let dateTime :=
    if String.eqb bulletin "" then date
    else match extractDateTimeFromURL bulletin with
         | Some parsed => parsed
         | None => date
         end in
  mkQuake dateTime lat lon depth mag (string_of_list_ascii loc) (string_of_list_ascii origin) bulletin.

(** [rows.EachWithBreak(...)] from row index [i]: stop at [n], skip rows
    with fewer than six cells. *)
Fixpoint eachRow (i n : Z) (rows : list row) : list Quake :=
  match rows with
  | [] => []
  | r :: rs =>
      if n <=? i then []
      else if (length (cells r) <? 6)%nat then eachRow (i + 1) n rs
      else parseRow r :: eachRow (i + 1) n rs
  end.

(** [parseFirstN(doc, n)] on the rows the selector finds (its error is
    always [nil]). *)
Definition parseFirstN (rows : list row) (n : Z) : list Quake := eachRow 0 n rows.

(* ------------------------------------------------------------------ *)
(** ** The JSON files and one poll cycle *)

(** [m[k] = v]: the value of a present key is replaced, a new key is
    added (at the end of the [range] order chosen here). *)
Fixpoint mapInsert (k : string) (v : Quake) (m : ledger) : ledger :=
  match m with
  | [] => [(k, v)]
  | (k', v') :: m' =>
      if String.eqb k k' then (k, v) :: m' else (k', v') :: mapInsert k v m'
  end.

(** [readAllQuakesFromFile(fileName, keyFunc)]: [None] stands for a file
    that cannot be read or does not hold a JSON array of quakes (both give
    an empty map), [Some quakes] for the array it holds. *)
Definition readAllQuakesFromFile (file : option (list Quake)) (keyFunc : Quake -> string)
    : ledger :=
  match file with
  | None => []
  | Some quakes => fold_left (fun m q => mapInsert (keyFunc q) q m) quakes []
  end.

(** What one iteration of the [for] loop of [main] does after the page
    was fetched and parsed into [latestQuakes]: the [postToMatrix] calls
    in order (as [(updatedQuake, updated, oldQuake)]), the slice written
    to [POST_QUAKE_FILE] if it is written, and the slice written to
    [CACHE_FILE]. *)
Record cycleResult := mkCycleResult {
  notifications : list (Quake * bool * Quake);
  postedFileOut : option (list Quake);
  cacheFileOut : list Quake
}.

Section Cycle.

Variable ParseFloat : string -> float64 * bool.
Variables refPointLat refPointLon refRadiusKm : R.

Definition pollCycle (now : civil) (cacheFile postedFile : option (list Quake))
    (latestQuakes : list Quake) : cycleResult :=
  let lastFetchQuakes := readAllQuakesFromFile cacheFile quakeOriginKey in
  let postedQuakes := readAllQuakesFromFile postedFile quakeLocationKey in
  let st := classifyAll ParseFloat refPointLat refPointLon refRadiusKm now
                        lastFetchQuakes postedQuakes latestQuakes in
  if (length (changed st) =? 0)%nat && (length (updated st) =? 0)%nat then
    mkCycleResult [] None latestQuakes
  else
    mkCycleResult
      (map (fun q => (q, false, q)) (rev (changed st)) ++
       map (fun u => (fst u, true, snd u)) (rev (updated st)))
      (Some (postedQuakesToSave st ++ snd (mapEqToSlice now postedQuakes)))
      latestQuakes.

End Cycle.

(* ------------------------------------------------------------------ *)
(** ** Auxiliary notions of the proofs *)

Definition pad2 (n : Z) : list ascii := [digitChar (n / 10); digitChar (n mod 10)].
Definition pad4 (n : Z) : list ascii :=
  [digitChar (n / 1000); digitChar (n / 100 mod 10);
   digitChar (n / 10 mod 10); digitChar (n mod 10)].

Definition daysTo (y mo d : Z) : Z :=
  daysBeforeYear y + daysBeforeMonth mo + (if isLeap y && (3 <=? mo) then 1 else 0) + (d - 1).

Definition timeParses (kv : string * Quake) : bool :=
  match parseTime (DateTime (snd kv)) with Some _ => true | None => false end.

Definition postedInv (st : loopState) : Prop :=
  Permutation (postedQuakesToSave st) (changed st ++ map fst (updated st)).

(* ------------------------------------------------------------------ *)
(** ** Concrete inputs *)

(** A poll on 19 October 2025 at noon. *)
Definition ex_now : civil := mkCivil 2025 10 19 12 0 0 0.

Definition bulletinURL (stamp : string) : string :=
  "https://earthquake.phivolcs.dost.gov.ph/2025_Earthquake_Information/October/2025_1015_"
  ++ stamp ++ ".html".

(** Second bulletin of a quake at 10:00:00 AM. *)
Definition c1_cur : Quake :=
  mkQuake "15 October 2025 - 10:00:00 AM" "" "" "012" "4.7"
          "012 km N 45 E of Cebu" "Cebu" (bulletinURL "020000_B2").

(** Its first bulletin, stored with the same instant written with two
    spaces after the dash (so its coarse key differs). *)
Definition c1_p : Quake :=
  mkQuake "15 October 2025 -  10:00:00 AM" "" "" "010" "4.6"
          "010 km N 45 E of Cebu" "Cebu" (bulletinURL "020000_B1").

(** Another quake of the same origin one minute later. *)
Definition c1_q : Quake :=
  mkQuake "15 October 2025 - 10:01:00 AM" "" "" "008" "3.2"
          "008 km N 40 E of Cebu" "Cebu" (bulletinURL "020100_B1").

Definition c1_ledger : ledger :=
  [(quakeOriginKey c1_p, c1_p); (quakeOriginKey c1_q, c1_q)].

(** A record without bulletin reference, and a last-poll ledger holding
    only an entry older than two months. *)
Definition c6_cur : Quake :=
  mkQuake "15 October 2025 - 10:00:00 AM" "" "" "005" "3.1"
          "005 km N 10 W of Bogo" "Bogo" "".

Definition c6_stale : Quake :=
  mkQuake "15 June 2025 - 10:00:00 AM" "" "" "005" "4.0"
          "004 km N 10 W of Bogo" "Bogo" "".

Definition c6_ledger : ledger := [(quakeOriginKey c6_stale, c6_stale)].

(** A first bulletin of magnitude 4.6 far from the reference point
    (unparsable coordinates get the global threshold), and its revision
    to magnitude 5.1. *)
Definition w_first : Quake :=
  mkQuake "15 October 2025 - 11:30:00 AM" "-" "-" "010" "4.6"
          "030 km S 20 W of Tandag" "Tandag" (bulletinURL "033000_B1").

Definition w_revised : Quake :=
  mkQuake "15 October 2025 - 11:30:00 AM" "-" "-" "012" "5.1"
          "030 km S 20 W of Tandag" "Tandag" (bulletinURL "033000_B2").

(** A notified ledger with an entry whose time does not parse and an
    entry older than two months. *)
Definition w_notified : ledger :=
  [("x|y", mkQuake "yesterday" "" "" "" "" "y" "y" "");
   (quakeLocationKey c6_stale, c6_stale)]%string.

(** A quake of the day before, on the notified ledger. *)
Definition w_recent : Quake :=
  mkQuake "14 October 2025 - 09:00:00 AM" "-" "-" "010" "5.0"
          "040 km S 20 W of Tandag" "Tandag" (bulletinURL "010000_B1").

(* ================================================================== *)
(** * Properties *)

(* ------------------------------------------------------------------ *)
(** ** Record Diff *)

(** C7: [quakeChanged] is false on two identical records, and true
    exactly when one of magnitude, depth, location, latitude, longitude
    or bulletin reference differs as text. *)
Theorem quakeChanged_spec : forall a b : Quake,
  quakeChanged a a = false /\
  (quakeChanged a b = true <->
     Magnitude a <> Magnitude b \/ Depth a <> Depth b \/
     Location a <> Location b \/ Latitude a <> Latitude b \/
     Longitude a <> Longitude b \/ Bulletin a <> Bulletin b).
Proof.
  intros a b; split.
  - unfold quakeChanged; rewrite !String.eqb_refl; reflexivity.
  - unfold quakeChanged.
    rewrite !orb_true_iff, !negb_true_iff, !String.eqb_neq.
    tauto.
Qed.

(* ------------------------------------------------------------------ *)
(** ** Fuzzy Address Matcher *)

Lemma levenshtein_refl : forall l : list ascii, levenshtein l l = 0%nat.
Proof.
  induction l as [|c l IH]; [reflexivity|].
  cbn [levenshtein]. destruct (ascii_dec c c) as [_|n]; [|contradiction].
  rewrite IH. apply Nat.min_r. lia.
Qed.

(** C9 (modelled from the spec): the similarity of a string with itself
    is 100, also for the empty string. *)
Theorem AddressSimilarity_refl : forall a : string, (AddressSimilarity a a == 100)%Q.
Proof.
  intro a. unfold AddressSimilarity.
  rewrite levenshtein_refl.
  destruct (Nat.max _ _ =? 0)%nat; [reflexivity|].
  unfold Qdiv. rewrite Qmult_0_l. reflexivity.
Qed.

(* ------------------------------------------------------------------ *)
(** ** Temporal Key Matcher *)

(** With tolerance 0, two timestamps whose instants are less than 292
    years apart match exactly when they denote the same instant: the
    seconds are not ignored. *)
Lemma sameDateAndTimeHM_same_instant : forall t1 t2 d1 d2,
  parseTime t1 = Some d1 -> parseTime t2 = Some d2 ->
  minInt64 < d1 - d2 <= maxInt64 ->
  (sameDateAndTimeHM t1 t2 = true <-> d1 = d2).
Proof.
  intros t1 t2 d1 d2 H1 H2 Hr.
  unfold sameDateAndTimeHM, sameDateAndTimeHMWithDelta, timeSub.
  rewrite H1, H2.
  unfold minInt64, maxInt64 in *.
  replace ((- 2 ^ 63 <=? d1 - d2) && (d1 - d2 <=? 2 ^ 63 - 1)) with true
    by (symmetry; apply andb_true_iff; split; apply Z.leb_le; lia).
  unfold wrapInt64.
  replace (0 * Minute) with 0 by reflexivity.
  rewrite Z.leb_le.
  destruct (d1 - d2 <? 0) eqn:E.
  - apply Z.ltb_lt in E.
    rewrite Z.mod_small by (cbn [Z.pow]; lia).
    rewrite (Z.mod_small (0 + 2 ^ 63)) by lia.
    split; intro; lia.
  - apply Z.ltb_ge in E.
    rewrite (Z.mod_small (0 + 2 ^ 63)) by lia.
    split; intro; lia.
Qed.

Definition c2_t1 : string := "15 October 2025 - 10:00:00 AM".
Definition c2_t2 : string := "15 October 2025 - 10:00:30 AM".

(** C2: at the failing input (two timestamps of the same minute, 30 s
    apart), the tolerance-0 matcher does not report them as the same
    minute. *)
Theorem sameDateAndTimeHM_seconds_failing_input :
  (exists d1 d2, parseTime c2_t1 = Some d1 /\ parseTime c2_t2 = Some d2 /\
                 Z.abs (d1 - d2) / Minute = 0) /\
  sameDateAndTimeHM c2_t1 c2_t2 = false.
Proof.
  split; [|vm_compute; reflexivity].
  exists 63896119200000000000, 63896119230000000000.
  vm_compute. repeat split.
Qed.

(* ------------------------------------------------------------------ *)
(** ** Classification Engine *)

(** [updatedQuakeHasBeenPosted] finds an entry of the notified ledger
    with a tolerance-0 matching time and the same bulletin reference. *)
Lemma updatedQuakeHasBeenPosted_iff : forall (posted : ledger) (cur : Quake),
  updatedQuakeHasBeenPosted posted cur = true <->
  exists k q, In (k, q) posted /\ sameDateAndTimeHM (DateTime cur) (DateTime q) = true /\
              Bulletin q = Bulletin cur.
Proof.
  intros posted cur. unfold updatedQuakeHasBeenPosted. rewrite existsb_exists.
  split.
  - intros [[k q] [Hin Hk]]. exists k, q. unfold isKnownBulletin in Hk. cbn in Hk.
    apply andb_true_iff in Hk as [H1 H2]. apply String.eqb_eq in H2. auto.
  - intros (k & q & Hin & H1 & H2). exists (k, q). split; [assumption|].
    unfold isKnownBulletin; cbn. rewrite H1, H2, String.eqb_refl. reflexivity.
Qed.

Section ClassifySpec.

Variable PF : string -> float64 * bool.
Variables rlat rlon rrad : R.

(** C4: when no previous snapshot is found, the record is not posted if
    its fine key [timestamp|location] is in the notified ledger; otherwise
    it is posted as new when its magnitude parses and is at or above the
    geo-threshold of its coordinates, and not posted when it is below. *)
Theorem classifyQuake_no_previous :
  forall now lf posted cur lf' pq,
  resolvePrevious now lf cur = (lf', (pq, false)) ->
  (mapLookup (quakeLocationKey cur) posted <> None ->
     snd (classifyQuake PF rlat rlon rrad now lf posted cur) = NotPosted) /\
  (mapLookup (quakeLocationKey cur) posted = None ->
     forall m, PF (Magnitude cur) = (m, true) ->
       (fge m (magnitudeThresholdFor PF rlat rlon rrad (Latitude cur) (Longitude cur)) = true ->
          snd (classifyQuake PF rlat rlon rrad now lf posted cur) = NewQuake) /\
       (fge m (magnitudeThresholdFor PF rlat rlon rrad (Latitude cur) (Longitude cur)) = false ->
          snd (classifyQuake PF rlat rlon rrad now lf posted cur) = NotPosted)) /\
  (forall m, PF (Magnitude cur) = (m, false) ->
     snd (classifyQuake PF rlat rlon rrad now lf posted cur) = NotPosted).
Proof.
  intros now lf posted cur lf' pq Hres.
  unfold classifyQuake. rewrite Hres. cbn [negb snd].
  split; [|split].
  - destruct (mapLookup _ posted); [reflexivity|]. intro H; exfalso; apply H; reflexivity.
  - intros Hnone m Hm. rewrite Hnone, Hm. cbn [andb].
    split; intro Hf; rewrite Hf; reflexivity.
  - intros m Hm. destruct (mapLookup _ posted); [reflexivity|].
    rewrite Hm. reflexivity.
Qed.

(** C3: when a previous snapshot [p] is found, the record is posted as a
    revision of [p] exactly when (1) [quakeChanged] reports a change,
    (2) no notified-ledger entry has a matching minute-precision time and
    the same bulletin reference, and (3) the new or the old magnitude is
    at or above the geo-threshold of its own coordinates; when (2) fails
    it is not posted. *)
Theorem classifyQuake_previous :
  forall now lf posted cur lf' p,
  resolvePrevious now lf cur = (lf', (p, true)) ->
  (snd (classifyQuake PF rlat rlon rrad now lf posted cur) = UpdatedQuake p <->
     quakeChanged p cur = true /\
     ~ (exists k q, In (k, q) posted /\
                    sameDateAndTimeHM (DateTime cur) (DateTime q) = true /\
                    Bulletin q = Bulletin cur) /\
     (fge (parseMag PF (Magnitude cur))
          (magnitudeThresholdFor PF rlat rlon rrad (Latitude cur) (Longitude cur)) = true \/
      fge (parseMag PF (Magnitude p))
          (magnitudeThresholdFor PF rlat rlon rrad (Latitude p) (Longitude p)) = true)) /\
  ((exists k q, In (k, q) posted /\
                sameDateAndTimeHM (DateTime cur) (DateTime q) = true /\
                Bulletin q = Bulletin cur) ->
     snd (classifyQuake PF rlat rlon rrad now lf posted cur) = NotPosted).
Proof.
  intros now lf posted cur lf' p Hres.
  unfold classifyQuake. rewrite Hres. cbn [negb snd].
  rewrite <- updatedQuakeHasBeenPosted_iff.
  unfold isCurrentAndPastQSignificant.
  split.
  - destruct (quakeChanged p cur), (updatedQuakeHasBeenPosted posted cur),
      (fge (parseMag PF (Magnitude cur)) _), (fge (parseMag PF (Magnitude p)) _);
      cbn; split; intuition congruence.
  - intro Hp. rewrite Hp. rewrite andb_false_r. reflexivity.
Qed.

End ClassifySpec.

(* ------------------------------------------------------------------ *)
(** ** Geo-Threshold Policy *)

(** C5: the local threshold (4.0) when the haversine distance to the
    reference point is within the radius, the global one (4.5) when it is
    strictly beyond, and the global one when a coordinate does not parse. *)
Theorem magnitudeThresholdFor_spec :
  forall (PF : string -> float64 * bool) (rlat rlon rrad : R) (latStr lonStr : string),
  (forall x y, PF latStr = (Finite x, true) -> PF lonStr = (Finite y, true) ->
     (distanceKm (Q2R x) (Q2R y) rlat rlon <= rrad)%R ->
     magnitudeThresholdFor PF rlat rlon rrad latStr lonStr = LOCAL_MAG_THRESH) /\
  (forall x y, PF latStr = (Finite x, true) -> PF lonStr = (Finite y, true) ->
     (rrad < distanceKm (Q2R x) (Q2R y) rlat rlon)%R ->
     magnitudeThresholdFor PF rlat rlon rrad latStr lonStr = GLOBAL_MAG_THRESH) /\
  ((snd (PF latStr) = false \/ snd (PF lonStr) = false) ->
     magnitudeThresholdFor PF rlat rlon rrad latStr lonStr = GLOBAL_MAG_THRESH).
Proof.
  intros PF rlat rlon rrad latStr lonStr.
  unfold magnitudeThresholdFor. split; [|split].
  - intros x y Hx Hy Hd. rewrite Hx, Hy. cbn [negb orb floatToR].
    destruct (Rle_dec _ _) as [_|Hn]; [reflexivity|contradiction].
  - intros x y Hx Hy Hd. rewrite Hx, Hy. cbn [negb orb floatToR].
    destruct (Rle_dec _ _) as [Hle|_]; [lra|reflexivity].
  - destruct (PF latStr) as [lat ok1], (PF lonStr) as [lon ok2]. cbn [snd].
    intros [-> | ->]; [reflexivity|]. rewrite orb_true_r. reflexivity.
Qed.

(** The haversine distance from a point to itself is 0. *)
Lemma distanceKm_same_point : forall lat lon : R, distanceKm lat lon lat lon = 0%R.
Proof.
  intros lat lon. unfold distanceKm.
  replace ((lat - lat) * PI / 180 / 2)%R with 0%R by field.
  replace ((lon - lon) * PI / 180 / 2)%R with 0%R by field.
  rewrite sin_0.
  replace (0 * 0 + cos (lat * PI / 180) * cos (lat * PI / 180) * 0 * 0)%R with 0%R by ring.
  rewrite sqrt_0, Rminus_0_r, sqrt_1.
  unfold atan2. destruct (Rlt_dec 0 1) as [_|H]; [|lra].
  unfold Rdiv. rewrite Rmult_0_l, atan_0. ring.
Qed.

(** The witness of C5: the reference point itself (default
    configuration) gets the local threshold, and empty coordinates the
    global one. *)
Lemma magnitudeThresholdFor_spec_witness :
  magnitudeThresholdFor parseDecimal DEFAULT_REF_POINT_LAT DEFAULT_REF_POINT_LON
    DEFAULT_REF_RADIUS_KM "10.32" "123.90" = LOCAL_MAG_THRESH /\
  magnitudeThresholdFor parseDecimal DEFAULT_REF_POINT_LAT DEFAULT_REF_POINT_LON
    DEFAULT_REF_RADIUS_KM "" "" = GLOBAL_MAG_THRESH.
Proof.
  split.
  - apply (proj1 (magnitudeThresholdFor_spec parseDecimal DEFAULT_REF_POINT_LAT
             DEFAULT_REF_POINT_LON DEFAULT_REF_RADIUS_KM "10.32" "123.90")
             (1032 # 100) (12390 # 100)); [reflexivity | reflexivity |].
    unfold DEFAULT_REF_POINT_LAT, DEFAULT_REF_POINT_LON, DEFAULT_REF_RADIUS_KM.
    rewrite distanceKm_same_point. lra.
  - apply (proj2 (proj2 (magnitudeThresholdFor_spec parseDecimal DEFAULT_REF_POINT_LAT
             DEFAULT_REF_POINT_LON DEFAULT_REF_RADIUS_KM "" ""))).
    left; reflexivity.
Defined.

(* ------------------------------------------------------------------ *)
(** ** Retention and ordering *)

(** Newest first: the later of two neighbours comes first. *)
Definition newestFirst (a b : Quake) : Prop := parsedOrZero b <= parsedOrZero a.

Lemma pruneEntries_slice : forall cutoff m q,
  In q (snd (pruneEntries cutoff m)) ->
  exists t, parseTime (DateTime q) = Some t /\ cutoff <= t.
Proof.
  intros cutoff m q. induction m as [|[k v] m IH]; cbn; [tauto|].
  destruct (pruneEntries cutoff m) as [mr s] eqn:E. cbn in IH.
  destruct (parseTime (DateTime v)) as [t|] eqn:Ht; cbn; [|exact IH].
  destruct (t <? cutoff) eqn:Hc; cbn; [exact IH|].
  intros [<- | Hin]; [|auto].
  exists t. split; [assumption|]. apply Z.ltb_ge in Hc. exact Hc.
Qed.

Lemma pruneEntries_map_sub : forall cutoff m kv,
  In kv (fst (pruneEntries cutoff m)) -> In kv m.
Proof.
  intros cutoff m kv. induction m as [|[k v] m IH]; cbn; [tauto|].
  destruct (pruneEntries cutoff m) as [mr s] eqn:E. cbn in IH.
  destruct (parseTime (DateTime v)) as [t|]; cbn; [destruct (t <? cutoff); cbn|];
    intuition.
Qed.

Lemma pruneEntries_kept_unparsed : forall cutoff m k v,
  In (k, v) m -> parseTime (DateTime v) = None ->
  In (k, v) (fst (pruneEntries cutoff m)).
Proof.
  intros cutoff m k v. induction m as [|[k' v'] m IH]; cbn; [tauto|].
  destruct (pruneEntries cutoff m) as [mr s] eqn:E. cbn in IH.
  intros [Heq | Hin] Hp.
  - injection Heq as -> ->. rewrite Hp. cbn. left; reflexivity.
  - destruct (parseTime (DateTime v')) as [t|]; cbn;
      [destruct (t <? cutoff); cbn|]; auto.
Qed.

Lemma pruneEntries_dropped : forall cutoff m k v t,
  parseTime (DateTime v) = Some t -> t < cutoff ->
  ~ In (k, v) (fst (pruneEntries cutoff m)).
Proof.
  intros cutoff m k v t Hp Hlt. induction m as [|[k' v'] m IH]; cbn; [tauto|].
  destruct (pruneEntries cutoff m) as [mr s] eqn:E. cbn in IH.
  destruct (parseTime (DateTime v')) as [t'|] eqn:Ht'; cbn;
    [destruct (t' <? cutoff) eqn:Hc; cbn|].
  - exact IH.
  - intros [Heq | Hin]; [|contradiction].
    injection Heq as -> ->. rewrite Hp in Ht'. injection Ht' as ->.
    apply Z.ltb_ge in Hc. lia.
  - intros [Heq | Hin]; [|contradiction].
    injection Heq as -> ->. congruence.
Qed.

Lemma insertQuake_perm : forall x l, Permutation (insertQuake x l) (x :: l).
Proof.
  intros x l. induction l as [|y l IH]; cbn; [reflexivity|].
  destruct (after x y); [reflexivity|].
  rewrite IH. apply perm_swap.
Qed.

Lemma sortSlice_perm : forall l, Permutation (sortSlice l) l.
Proof.
  induction l as [|x l IH]; cbn; [reflexivity|].
  rewrite insertQuake_perm. apply perm_skip. exact IH.
Qed.

Lemma insertQuake_sorted : forall x l,
  Sorted newestFirst l -> Sorted newestFirst (insertQuake x l).
Proof.
  intros x l. induction l as [|y l IH]; intro Hs; cbn.
  - repeat constructor.
  - destruct (after x y) eqn:Ha.
    + constructor; [exact Hs|]. constructor.
      unfold after in Ha. apply Z.ltb_lt in Ha. unfold newestFirst. lia.
    + apply Sorted_inv in Hs as [Hs Hhd].
      constructor; [apply IH; exact Hs|].
      unfold after in Ha. apply Z.ltb_ge in Ha.
      destruct l as [|z l]; cbn.
      * constructor. unfold newestFirst. lia.
      * destruct (after x z); constructor; unfold newestFirst; [lia|].
        inversion Hhd; assumption.
Qed.

Lemma sortSlice_sorted : forall l, Sorted newestFirst (sortSlice l).
Proof.
  induction l as [|x l IH]; cbn; [constructor|].
  apply insertQuake_sorted. exact IH.
Qed.

(** C8: every entry of the slice returned by [mapEqToSlice] has a time
    that parses and is not before [now.AddDate(0, -2, 0)], whatever the
    order of the map, and the slice is sorted newest first. *)
Theorem mapEqToSlice_retention_sorted : forall (now : civil) (m : ledger),
  (forall q, In q (snd (mapEqToSlice now m)) ->
     exists t, parseTime (DateTime q) = Some t /\ twoMonthsBefore now <= t) /\
  Sorted newestFirst (snd (mapEqToSlice now m)).
Proof.
  intros now m. unfold mapEqToSlice.
  destruct (pruneEntries (twoMonthsBefore now) m) as [m' s] eqn:E. cbn [snd].
  split; [|apply sortSlice_sorted].
  intros q Hq. apply (Permutation_in _ (sortSlice_perm s)) in Hq.
  apply (pruneEntries_slice (twoMonthsBefore now) m). rewrite E. exact Hq.
Qed.

(** Keys of a Go map are distinct: a key has one value. *)
Lemma ledger_key_unique : forall (m : ledger) k v v',
  NoDup (map fst m) -> In (k, v) m -> In (k, v') m -> v = v'.
Proof.
  induction m as [|[k0 v0] m IH]; intros k v v' Hnd H1 H2; cbn in *; [tauto|].
  inversion Hnd as [|? ? Hnotin Hnd']; subst.
  destruct H1 as [E1 | H1], H2 as [E2 | H2].
  - congruence.
  - injection E1 as -> ->. exfalso. apply Hnotin.
    apply (in_map fst) in H2. exact H2.
  - injection E2 as -> ->. exfalso. apply Hnotin.
    apply (in_map fst) in H1. exact H1.
  - eapply IH; eassumption.
Qed.

(** C10: [mapEqToSlice] changes the caller's map: an entry whose time
    parses and is older than two months is deleted from it, while an entry
    whose time does not parse stays in it but is left out of the slice. *)
Theorem mapEqToSlice_mutation : forall (now : civil) (m : ledger) k v,
  NoDup (map fst m) -> In (k, v) m ->
  (parseTime (DateTime v) = None ->
     In (k, v) (fst (mapEqToSlice now m)) /\ ~ In v (snd (mapEqToSlice now m))) /\
  (forall t, parseTime (DateTime v) = Some t -> t < twoMonthsBefore now ->
     ~ In k (map fst (fst (mapEqToSlice now m)))).
Proof.
  intros now m k v Hnd Hin. split.
  - intro Hp. split.
    + unfold mapEqToSlice.
      pose proof (pruneEntries_kept_unparsed (twoMonthsBefore now) m k v Hin Hp) as H.
      destruct (pruneEntries (twoMonthsBefore now) m); exact H.
    + intro Hv. unfold mapEqToSlice in Hv.
      destruct (pruneEntries (twoMonthsBefore now) m) as [m' s] eqn:E. cbn [snd] in Hv.
      apply (Permutation_in _ (sortSlice_perm s)) in Hv.
      destruct (pruneEntries_slice (twoMonthsBefore now) m v) as (t & Ht & _);
        [rewrite E; exact Hv|].
      congruence.
  - intros t Hp Hlt Hk. unfold mapEqToSlice in Hk.
    pose proof (pruneEntries_dropped (twoMonthsBefore now) m k v t Hp Hlt) as Hd.
    pose proof (pruneEntries_map_sub (twoMonthsBefore now) m) as Hsub.
    destruct (pruneEntries (twoMonthsBefore now) m) as [m' s]. cbn in *.
    apply in_map_iff in Hk as [[k' v'] [Hk' Hin']]. cbn in Hk'. subst k'.
    assert (v' = v) as -> by (eapply ledger_key_unique; [exact Hnd | apply Hsub; exact Hin' | exact Hin]).
    contradiction.
Qed.

Lemma classifyQuake_no_previous_witness :
  resolvePrevious ex_now [] w_first = ([], (zeroQuake, false)) /\
  snd (classifyQuake parseDecimal DEFAULT_REF_POINT_LAT DEFAULT_REF_POINT_LON
         DEFAULT_REF_RADIUS_KM ex_now [] [] w_first) = NewQuake.
Proof.
  split; [vm_compute; reflexivity|].
  apply (proj1 (proj1 (proj2 (classifyQuake_no_previous parseDecimal DEFAULT_REF_POINT_LAT
           DEFAULT_REF_POINT_LON DEFAULT_REF_RADIUS_KM ex_now [] [] w_first [] zeroQuake
           ltac:(vm_compute; reflexivity))) ltac:(vm_compute; reflexivity)
           (Finite (46 # 10)) ltac:(vm_compute; reflexivity))).
  vm_compute. reflexivity.
Defined.

Lemma classifyQuake_previous_witness :
  resolvePrevious ex_now [(quakeOriginKey w_first, w_first)] w_revised
    = ([(quakeOriginKey w_first, w_first)], (w_first, true)) /\
  snd (classifyQuake parseDecimal DEFAULT_REF_POINT_LAT DEFAULT_REF_POINT_LON
         DEFAULT_REF_RADIUS_KM ex_now [(quakeOriginKey w_first, w_first)] []
         w_revised) = UpdatedQuake w_first.
Proof.
  split; [vm_compute; reflexivity|].
  apply (proj2 (proj1 (classifyQuake_previous parseDecimal DEFAULT_REF_POINT_LAT
           DEFAULT_REF_POINT_LON DEFAULT_REF_RADIUS_KM ex_now
           [(quakeOriginKey w_first, w_first)] [] w_revised
           [(quakeOriginKey w_first, w_first)] w_first
           ltac:(vm_compute; reflexivity)))).
  split; [vm_compute; reflexivity|].
  split; [intros (k & q & [] & _)|].
  left. vm_compute. reflexivity.
Defined.

Lemma mapEqToSlice_mutation_witness :
  NoDup (map fst w_notified) /\
  In ("x|y", mkQuake "yesterday" "" "" "" "" "y" "y" "")%string
     (fst (mapEqToSlice ex_now w_notified)) /\
  ~ In (quakeLocationKey c6_stale) (map fst (fst (mapEqToSlice ex_now w_notified))).
Proof.
  assert (Hnd : NoDup (map fst w_notified)).
  { constructor; [cbn; intros [H | []]; discriminate|].
    constructor; [intros []|constructor]. }
  split; [exact Hnd|]. split.
  - apply (proj1 (proj1 (mapEqToSlice_mutation ex_now w_notified "x|y"%string
             (mkQuake "yesterday" "" "" "" "" "y" "y" "") Hnd
             ltac:(left; reflexivity)) ltac:(vm_compute; reflexivity))).
  - apply (proj2 (mapEqToSlice_mutation ex_now w_notified (quakeLocationKey c6_stale)
             c6_stale Hnd ltac:(right; left; reflexivity)) 63885578400000000000);
      vm_compute; reflexivity.
Defined.

(* ------------------------------------------------------------------ *)
(** ** Identity Resolver *)

Lemma isDigitC_digitVal : forall c, isDigitC c = true -> 0 <= digitVal c <= 9.
Proof.
  intros c H. unfold isDigitC in H. apply andb_true_iff in H as [H1 H2].
  apply Nat.leb_le in H1. apply Nat.leb_le in H2. unfold digitVal. lia.
Qed.

Lemma digitAfterB_range : forall r,
  0 <= fst (digitAfterB r) /\ (snd (digitAfterB r) = false -> fst (digitAfterB r) = 0).
Proof.
  intro r. unfold digitAfterB.
  destruct r as [|d [|b [|u r]]]; cbn; try (split; [lia|reflexivity]).
  destruct (isDigitC d) eqn:Hd; cbn; [|split; [lia|reflexivity]].
  destruct (ascii_eqb b "B" && ascii_eqb u "_"); cbn; [|split; [lia|reflexivity]].
  split; [apply isDigitC_digitVal; exact Hd|discriminate].
Qed.

(** A bulletin number is a digit; it is 0 when none is found. *)
Lemma getBulletinNumber_range : forall url,
  0 <= fst (getBulletinNumber url) /\
  (snd (getBulletinNumber url) = false -> fst (getBulletinNumber url) = 0).
Proof.
  intro url. unfold getBulletinNumber.
  destruct (startsWith _ _); [apply digitAfterB_range|cbn; split; [lia|reflexivity]].
Qed.

Lemma firstRevised_sound : forall cur m p,
  firstRevised cur m = Some p -> isRevisedQuake cur p = true.
Proof.
  intros cur m p. induction m as [|[k v] m IH]; cbn; [discriminate|].
  destruct (isRevisedQuake cur v) eqn:E; [congruence|exact IH].
Qed.

Lemma firstSimilar_sound : forall cur l p,
  firstSimilar cur l = Some p ->
  fst (getBulletinNumber (Bulletin p)) < fst (getBulletinNumber (Bulletin cur)).
Proof.
  intros cur l p. induction l as [|v l IH]; cbn; [discriminate|].
  destruct (Qle_bool _ _ && _) eqn:E; [|exact IH].
  intro H; injection H as <-. apply andb_true_iff in E as [_ E].
  apply Z.ltb_lt in E. exact E.
Qed.

Lemma isRevisedQuake_sound : forall cur p,
  isRevisedQuake cur p = true ->
  snd (getBulletinNumber (Bulletin cur)) = true /\
  fst (getBulletinNumber (Bulletin p)) < fst (getBulletinNumber (Bulletin cur)).
Proof.
  intros cur p. unfold isRevisedQuake.
  destruct (getBulletinNumber (Bulletin cur)) as [cn ok1],
           (getBulletinNumber (Bulletin p)) as [pn ok2].
  destruct ok1, ok2; cbn; try discriminate.
  intro H. apply andb_true_iff in H as [_ H]. apply Z.ltb_lt in H. auto.
Qed.

(** C6 (as amended): after a miss of the exact lookup, the heuristic is
    run whenever the extracted sequence number is not 1 (a missing
    bulletin reference extracts as 0), but it yields a previous record
    only when a sequence number was extracted and is greater than 1. *)
Theorem resolvePrevious_heuristic_needs_sequence :
  forall (now : civil) (lf : ledger) (cur : Quake),
  mapLookup (quakeOriginKey cur) lf = None ->
  (fst (getBulletinNumber (Bulletin cur)) <> 1 ->
     resolvePrevious now lf cur = determinePastQuakeThroughHeuristics now lf cur) /\
  (forall lf' p, resolvePrevious now lf cur = (lf', (p, true)) ->
     exists n, getBulletinNumber (Bulletin cur) = (n, true) /\ 1 < n).
Proof.
  intros now lf cur Hmiss. unfold resolvePrevious, heuristicsEligible. rewrite Hmiss.
  split.
  - intro Hn. apply Z.eqb_neq in Hn. rewrite Hn. reflexivity.
  - intros lf' p.
    destruct (fst (getBulletinNumber (Bulletin cur)) =? 1) eqn:E1; cbn [negb];
      [discriminate|].
    apply Z.eqb_neq in E1.
    assert (Hpos : forall q, fst (getBulletinNumber (Bulletin q)) <
                             fst (getBulletinNumber (Bulletin cur)) ->
                   exists n, getBulletinNumber (Bulletin cur) = (n, true) /\ 1 < n).
    { intros q Hlt.
      destruct (getBulletinNumber_range (Bulletin q)) as [Hq _].
      destruct (getBulletinNumber_range (Bulletin cur)) as [Hc Hz].
      destruct (getBulletinNumber (Bulletin cur)) as [n ok]. cbn in *.
      destruct ok; [exists n; split; [reflexivity|lia]|].
      specialize (Hz eq_refl). lia. }
    unfold determinePastQuakeThroughHeuristics.
    destruct (mapEqToSlice now lf) as [m' s].
    destruct (firstSimilar cur _) as [q|] eqn:Hs.
    + intros _. apply (Hpos q). eapply firstSimilar_sound; exact Hs.
    + destruct (firstRevised cur lf) as [q|] eqn:Hr; [|discriminate].
      intros _. apply (Hpos q).
      apply isRevisedQuake_sound. eapply firstRevised_sound; exact Hr.
Qed.

Lemma resolvePrevious_heuristic_needs_sequence_witness :
  mapLookup (quakeOriginKey c1_cur) c1_ledger = None /\
  exists n, getBulletinNumber (Bulletin c1_cur) = (n, true) /\ 1 < n.
Proof.
  split; [vm_compute; reflexivity|].
  apply (proj2 (resolvePrevious_heuristic_needs_sequence ex_now c1_ledger c1_cur
           ltac:(vm_compute; reflexivity)) c1_ledger c1_q).
  vm_compute. reflexivity.
Defined.

(** C6 as stated fails: a record without bulletin reference, missed by
    the exact lookup, is handed to the heuristic, whose [mapEqToSlice]
    call then deletes the stale entry of the last-poll ledger. *)
Lemma resolvePrevious_missing_bulletin_counterexample :
  ~ (forall (now : civil) (lf : ledger) (cur : Quake),
       mapLookup (quakeOriginKey cur) lf = None ->
       snd (getBulletinNumber (Bulletin cur)) = false ->
       resolvePrevious now lf cur = (lf, (zeroQuake, false))).
Proof.
  intro H.
  specialize (H ex_now c6_ledger c6_cur ltac:(vm_compute; reflexivity)
                ltac:(vm_compute; reflexivity)).
  vm_compute in H. discriminate H.
Qed.

(** C1: at the failing input, step 2a finds the first bulletin [c1_p],
    yet the fuzzy scan still runs and its match [c1_q] (another quake one
    minute later) becomes the resolved previous record. *)
Theorem determinePast_fuzzy_overrides_revision :
  mapLookup (quakeOriginKey c1_cur) c1_ledger = None /\
  heuristicsEligible c1_cur = true /\
  firstRevised c1_cur c1_ledger = Some c1_p /\
  snd (resolvePrevious ex_now c1_ledger c1_cur) = (c1_q, true) /\
  c1_q <> c1_p.
Proof.
  split; [vm_compute; reflexivity|].
  split; [vm_compute; reflexivity|].
  split; [vm_compute; reflexivity|].
  split; [vm_compute; reflexivity|].
  unfold c1_q, c1_p. intro H. injection H. discriminate.
Qed.

(* ================================================================== *)
(** * Further properties of the code *)

Lemma digitChar_ok (k : Z) :
  0 <= k <= 9 ->
  isDigitC (digitChar k) = true /\ digitVal (digitChar k) = k /\
  ascii_eqb (digitChar k) " " = false.
Proof.
  intros Hk.
  assert (k = 0 \/ k = 1 \/ k = 2 \/ k = 3 \/ k = 4 \/ k = 5 \/ k = 6 \/
          k = 7 \/ k = 8 \/ k = 9) as Hc by lia.
  repeat destruct Hc as [-> | Hc]; try (subst k); repeat split; reflexivity.
Qed.

Lemma getnum_pad2 (n : Z) (rest : list ascii) :
  0 <= n < 100 ->
  getnum (digitChar (n / 10) :: digitChar (n mod 10) :: rest) true = Some (n, rest).
Proof.
  intros Hn.
  destruct (digitChar_ok (n / 10)) as [A1 [A2 _]]; [Z.div_mod_to_equations; lia|].
  destruct (digitChar_ok (n mod 10)) as [B1 [B2 _]]; [Z.div_mod_to_equations; lia|].
  unfold getnum. rewrite A1, B1, A2, B2. f_equal. f_equal. Z.div_mod_to_equations; lia.
Qed.

Lemma skip_space (c : ascii) (r : list ascii) :
  ascii_eqb c " " = false -> skip (" " :: c :: r)%char [" "%char] = Some (c :: r).
Proof. intros H. unfold skip. cbn [skip_aux]. cbn. rewrite H. reflexivity. Qed.

Lemma skip_lit (c : ascii) (r : list ascii) :
  ascii_eqb c " " = false -> skip (c :: r) [c] = Some r.
Proof.
  intros H. unfold skip. cbn [skip_aux]. rewrite H.
  unfold ascii_eqb at 1. destruct (ascii_dec c c); [reflexivity | congruence].
Qed.

Lemma skip_dash (c : ascii) (r : list ascii) :
  ascii_eqb c " " = false ->
  skip (" " :: "-" :: " " :: c :: r)%char [" "; "-"; " "]%char = Some (c :: r).
Proof. intros H. unfold skip. cbn. rewrite H. reflexivity. Qed.


Lemma appendInt_2 (n : Z) : 0 <= n < 100 -> appendInt n 2 = pad2 n.
Proof.
  intros Hn. unfold appendInt. rewrite Z.abs_eq by lia.
  replace (n <? 0) with false by (symmetry; apply Z.ltb_ge; lia).
  replace (n <? 100) with true by (symmetry; apply Z.ltb_lt; lia). reflexivity.
Qed.

Lemma appendInt_4 (n : Z) : 0 <= n < 10000 -> appendInt n 4 = pad4 n.
Proof.
  intros Hn. unfold appendInt. rewrite Z.abs_eq by lia.
  replace (n <? 0) with false by (symmetry; apply Z.ltb_ge; lia).
  replace (n <? 10000) with true by (symmetry; apply Z.ltb_lt; lia). reflexivity.
Qed.

Lemma parseYear_pad4 (y : Z) (rest : list ascii) :
  0 <= y < 10000 -> parseYear (pad4 y ++ rest) = Some (y, rest).
Proof.
  intros Hy.
  destruct (digitChar_ok (y / 1000)) as [A1 [A2 _]]; [Z.div_mod_to_equations; lia|].
  destruct (digitChar_ok (y / 100 mod 10)) as [B1 [B2 _]]; [Z.div_mod_to_equations; lia|].
  destruct (digitChar_ok (y / 10 mod 10)) as [C1 [C2 _]]; [Z.div_mod_to_equations; lia|].
  destruct (digitChar_ok (y mod 10)) as [D1 [D2 _]]; [Z.div_mod_to_equations; lia|].
  unfold parseYear, pad4. cbn [app length firstn skipn allDigits digitsValue].
  rewrite A1, B1, C1, D1, A2, B2, C2, D2. cbn.
  f_equal. f_equal. Z.div_mod_to_equations; lia.
Qed.

Lemma lookupName_month (mo : Z) (rest : list ascii) :
  1 <= mo <= 12 ->
  lookupName 0 longMonthNames (list_ascii_of_string (monthName mo) ++ " "%char :: rest)
  = Some (mo - 1, " "%char :: rest).
Proof.
  intros Hm.
  assert (mo = 1 \/ mo = 2 \/ mo = 3 \/ mo = 4 \/ mo = 5 \/ mo = 6 \/ mo = 7 \/
          mo = 8 \/ mo = 9 \/ mo = 10 \/ mo = 11 \/ mo = 12) as Hc by lia.
  repeat destruct Hc as [-> | Hc]; try (subst mo);
    match goal with |- context [monthName ?m] =>
      let v := eval vm_compute in (monthName m) in change (monthName m) with v end;
    cbn; rewrite ?andb_false_r; cbn; reflexivity.
Qed.

Lemma daysIn_range (mo y : Z) : 1 <= mo <= 12 -> 28 <= daysIn mo y <= 31.
Proof.
  intros Hm. unfold daysIn.
  assert (mo = 1 \/ mo = 2 \/ mo = 3 \/ mo = 4 \/ mo = 5 \/ mo = 6 \/ mo = 7 \/
          mo = 8 \/ mo = 9 \/ mo = 10 \/ mo = 11 \/ mo = 12) as Hc by lia.
  repeat destruct Hc as [-> | Hc]; try (subst mo); cbn;
    try destruct (isLeap y); cbn; lia.
Qed.

Lemma getnum_pad2' (n : Z) (r : list ascii) :
  0 <= n < 100 -> getnum (pad2 n ++ r) true = Some (n, r).
Proof. intros Hn. apply getnum_pad2; lia. Qed.

Lemma skip_lit_pad2 (c : ascii) (n : Z) (r : list ascii) :
  ascii_eqb c " " = false -> skip (c :: pad2 n ++ r) [c] = Some (pad2 n ++ r).
Proof. intros Hc. apply skip_lit; exact Hc. Qed.

Lemma skip_dash_pad2 (n : Z) (r : list ascii) :
  0 <= n < 100 ->
  skip (" " :: "-" :: " " :: pad2 n ++ r)%char [" "; "-"; " "]%char = Some (pad2 n ++ r).
Proof.
  intros Hn. destruct (digitChar_ok (n / 10)) as [_ [_ A3]]; [Z.div_mod_to_equations; lia|].
  unfold pad2. cbn [app]. apply skip_dash. exact A3.
Qed.
Lemma skip_space_pad4 (y : Z) (r : list ascii) :
  0 <= y < 10000 -> skip (" " :: pad4 y ++ r)%char [" "%char] = Some (pad4 y ++ r).
Proof.
  intros Hy. destruct (digitChar_ok (y / 1000)) as [_ [_ A3]]; [Z.div_mod_to_equations; lia|].
  unfold pad4. cbn [app]. apply skip_space. exact A3.
Qed.

Lemma skip_space_month (mo : Z) (r : list ascii) :
  1 <= mo <= 12 ->
  skip (" " :: list_ascii_of_string (monthName mo) ++ r)%char [" "%char]
  = Some (list_ascii_of_string (monthName mo) ++ r).
Proof.
  intros Hm.
  assert (mo = 1 \/ mo = 2 \/ mo = 3 \/ mo = 4 \/ mo = 5 \/ mo = 6 \/ mo = 7 \/
          mo = 8 \/ mo = 9 \/ mo = 10 \/ mo = 11 \/ mo = 12) as Hc by lia.
  repeat destruct Hc as [-> | Hc]; try (subst mo);
    match goal with |- context [monthName ?m] =>
      let v := eval vm_compute in (monthName m) in change (monthName m) with v end;
    reflexivity.
Qed.

Lemma parseTimeL_formatDT (y mo d h mi s : Z) :
  0 <= y < 10000 -> 1 <= mo <= 12 -> 1 <= d <= daysIn mo y -> 0 <= h < 24 ->
  0 <= mi < 60 -> 0 <= s < 60 ->
  parseTimeL (formatDT y mo d h mi s) = Some (dateNs y mo d h mi s 0).
Proof.
  intros Hy Hm Hd Hh Hmi Hs.
  pose proof (daysIn_range mo y Hm) as Hdi.
  unfold formatDT.
  set (hr := (if h mod 12 =? 0 then 12 else h mod 12)%Z).
  assert (Hhr : 1 <= hr <= 12).
  { subst hr. destruct (Z.eqb_spec (h mod 12) 0); Z.div_mod_to_equations; lia. }
  rewrite (appendInt_2 d), (appendInt_4 y), (appendInt_2 hr), (appendInt_2 mi),
    (appendInt_2 s) by lia.
  cbn [app].
  unfold parseTimeL.
  rewrite getnum_pad2' by lia. cbv iota beta.
  rewrite skip_space_month by exact Hm. cbv iota beta.
  rewrite lookupName_month by exact Hm. cbv iota beta.
  rewrite skip_space_pad4 by lia. cbv iota beta.
  rewrite parseYear_pad4 by lia. cbv iota beta.
  rewrite skip_dash_pad2 by lia. cbv iota beta.
  rewrite getnum_pad2' by lia. cbv iota beta.
  replace ((hr <? 0) || (12 <? hr)) with false by (symmetry; apply orb_false_iff; split; apply Z.ltb_ge; lia).
  rewrite skip_lit_pad2 by reflexivity. cbv iota beta.
  rewrite getnum_pad2' by lia. cbv iota beta.
  replace ((mi <? 0) || (60 <=? mi)) with false by (symmetry; apply orb_false_iff; split; [apply Z.ltb_ge | apply Z.leb_gt]; lia).
  rewrite skip_lit_pad2 by reflexivity. cbv iota beta.
  rewrite getnum_pad2' by lia. cbv iota beta.
  replace ((s <? 0) || (60 <=? s)) with false by (symmetry; apply orb_false_iff; split; [apply Z.ltb_ge | apply Z.leb_gt]; lia).
  assert (Hrel : (12 <= h -> (hr < 12 -> hr + 12 = h) /\ (hr = 12 -> h = 12)) /\
                 (h < 12 -> (hr = 12 -> h = 0) /\ (hr < 12 -> hr = h))).
  { subst hr. destruct (Z.eqb_spec (h mod 12) 0); Z.div_mod_to_equations; lia. }
  clearbody hr.
  replace (mo - 1 + 1) with mo by lia.
  replace ((d <? 1) || (daysIn mo y <? d)) with false
    by (symmetry; apply orb_false_iff; split; apply Z.ltb_ge; lia).
  destruct (Z.leb_spec 12 h) as [Hpm | Ham].
  - cbn -[dateNs]. destruct (Z.ltb_spec hr 12); do 2 f_equal; lia.
  - cbn -[dateNs]. replace (12 <=? h) with false by (symmetry; apply Z.leb_gt; lia).
    cbn -[dateNs]. destruct (Z.eqb_spec hr 12); do 2 f_equal; lia.
Qed.


Lemma dateNs_norm (y mo d h mi s ns : Z) :
  1 <= mo <= 12 ->
  dateNs y mo d h mi s ns = (((daysTo y mo d * 24 + h) * 60 + mi) * 60 + s) * 1000000000 + ns.
Proof.
  intros Hm. unfold dateNs, daysTo.
  rewrite (Z.div_small (mo - 1) 12) by lia. rewrite (Z.mod_small (mo - 1) 12) by lia.
  rewrite Z.add_0_r. replace (mo - 1 + 1) with mo by lia. reflexivity.
Qed.

Lemma div_step (y k : Z) :
  0 < k -> y / k - (y - 1) / k = if y mod k =? 0 then 1 else 0.
Proof.
  intros Hk. destruct (Z.eqb_spec (y mod k) 0); Z.div_mod_to_equations; nia.
Qed.

Lemma daysBeforeYear_succ (y : Z) :
  daysBeforeYear (y + 1) = daysBeforeYear y + 365 + (if isLeap y then 1 else 0).
Proof.
  unfold daysBeforeYear, isLeap.
  replace (y + 1 - 1) with y by lia.
  pose proof (div_step y 4 ltac:(lia)). pose proof (div_step y 100 ltac:(lia)).
  pose proof (div_step y 400 ltac:(lia)).
  assert (y mod 100 = 0 -> y mod 4 = 0).
  { intros E. rewrite <- (Z.mod_mod_divide y 100 4) by (exists 25; lia). rewrite E. reflexivity. }
  assert (y mod 400 = 0 -> y mod 100 = 0).
  { intros E. rewrite <- (Z.mod_mod_divide y 400 100) by (exists 4; lia). rewrite E. reflexivity. }
  destruct (Z.eqb_spec (y mod 4) 0), (Z.eqb_spec (y mod 100) 0), (Z.eqb_spec (y mod 400) 0);
    cbv [andb orb negb] in *; lia.
Qed.

Lemma daysTo_month_end (y mo : Z) :
  1 <= mo < 12 -> daysTo y (mo + 1) 1 = daysTo y mo (daysIn mo y) + 1.
Proof.
  intros Hm. unfold daysTo, daysIn.
  assert (mo = 1 \/ mo = 2 \/ mo = 3 \/ mo = 4 \/ mo = 5 \/ mo = 6 \/ mo = 7 \/
          mo = 8 \/ mo = 9 \/ mo = 10 \/ mo = 11) as Hc by lia.
  repeat destruct Hc as [-> | Hc]; try (subst mo); cbn;
    destruct (isLeap y); cbn; lia.
Qed.

Lemma daysTo_year_end (y : Z) : daysTo (y + 1) 1 1 = daysTo y 12 31 + 1.
Proof.
  unfold daysTo. rewrite daysBeforeYear_succ.
  change (3 <=? 1) with false. change (3 <=? 12) with true.
  rewrite andb_false_r, andb_true_r.
  change (daysBeforeMonth 1) with 0. change (daysBeforeMonth 12) with 334.
  destruct (isLeap y); lia.
Qed.

Lemma addHours8_ok (y mo d h : Z) :
  1 <= mo <= 12 -> 1 <= d <= daysIn mo y -> 0 <= h < 24 ->
  let '(y', mo', d', h') := addHours8 y mo d h in
  1 <= mo' <= 12 /\ 1 <= d' <= daysIn mo' y' /\ 0 <= h' < 24 /\ y <= y' /\
  forall mi s, dateNs y' mo' d' h' mi s 0 = dateNs y mo d h mi s 0 + 8 * 3600 * 1000000000.
Proof.
  intros Hm Hd Hh. pose proof (daysIn_range mo y Hm) as Hdi.
  unfold addHours8.
  destruct (Z.ltb_spec (h + 8) 24).
  { repeat split; try lia. intros mi s. rewrite !dateNs_norm by lia. lia. }
  destruct (Z.leb_spec (d + 1) (daysIn mo y)).
  { repeat split; try lia. intros mi s. rewrite !dateNs_norm by lia. unfold daysTo. lia. }
  destruct (Z.ltb_spec mo 12).
  { pose proof (daysIn_range (mo + 1) y ltac:(lia)).
    repeat split; try lia. intros mi s. rewrite !dateNs_norm by lia.
    replace d with (daysIn mo y) by lia. rewrite daysTo_month_end by lia. lia. }
  assert (mo = 12) by lia. subst mo.
  assert (daysIn 12 y = 31) as H31 by reflexivity.
  pose proof (daysIn_range 1 (y + 1) ltac:(lia)).
  repeat split; try lia. intros mi s. rewrite !dateNs_norm by lia.
  replace d with 31 by lia. rewrite daysTo_year_end. lia.
Qed.

Lemma digitsValue_nonneg (l : list ascii) :
  forall acc, 0 <= acc -> allDigits l = true -> 0 <= digitsValue acc l.
Proof.
  induction l as [|c l IH]; intros acc Ha Hl; cbn in *; [lia|].
  apply andb_true_iff in Hl as [Hc Hl]. apply isDigitC_digitVal in Hc.
  apply IH; [lia | exact Hl].
Qed.

Lemma stampAt_nonneg (l : list ascii) (y mo d h mi s : Z) :
  stampAt l = Some (y, mo, d, h, mi, s) -> 0 <= y /\ 0 <= h /\ 0 <= mi /\ 0 <= s.
Proof.
  unfold stampAt. intros H.
  do 16 (destruct l as [|? l]; [discriminate|]).
  destruct (allDigits _ && _ && _) eqn:E; [|discriminate].
  injection H as <- <- <- <- <- <-.
  apply andb_true_iff in E as [E _]. apply andb_true_iff in E as [E _].
  cbn [allDigits] in E. rewrite !andb_true_iff in E.
  repeat match type of E with
  | ?A /\ ?B => let E1 := fresh "E" in destruct E as [E1 E]; apply isDigitC_digitVal in E1
  end.
  cbn [digitsValue]. lia.
Qed.

Lemma findStamp_nonneg (l : list ascii) (y mo d h mi s : Z) :
  findStamp l = Some (y, mo, d, h, mi, s) -> 0 <= y /\ 0 <= h /\ 0 <= mi /\ 0 <= s.
Proof.
  induction l as [|c l IH]; cbn [findStamp]; [discriminate|].
  destruct (stampAt (c :: l)) as [g|] eqn:E.
  - intros H. injection H as ->. apply (stampAt_nonneg _ _ _ _ _ _ _ E).
  - exact IH.
Qed.

(** A timestamp that [extractDateTimeFromURL] takes from a bulletin URL (the first [YYYY_MMDD_hhmmss] in it, read as UTC) parses back, through [DATE_TIME_LAYOUT], to that instant plus eight hours, as long as the shifted year has four digits. *)
Theorem extractDateTimeFromURL_parses (url out : string) (y mo d h mi s : Z) :
  findStamp (list_ascii_of_string url) = Some (y, mo, d, h, mi, s) ->
  extractDateTimeFromURL url = Some out ->
  (let '(y', _, _, _) := addHours8 y mo d h in y' <= 9999) ->
  parseTime out = Some (dateNs y mo d h mi s 0 + 8 * 3600 * 1000000000).
Proof.
  intros Hf He Hy. pose proof (findStamp_nonneg _ _ _ _ _ _ _ Hf) as (Hy0 & Hh0 & Hmi0 & Hs0).
  unfold extractDateTimeFromURL in He. rewrite Hf in He.
  destruct (validStamp y mo d h mi s) eqn:V; [|discriminate].
  unfold validStamp in V. rewrite !andb_true_iff, !Z.leb_le, !Z.ltb_lt in V.
  destruct V as ((((((V1 & V2) & V3) & V4) & V5) & V6) & V7).
  pose proof (addHours8_ok y mo d h ltac:(lia) ltac:(lia) ltac:(lia)) as A.
  destruct (addHours8 y mo d h) as [[[y' mo'] d'] h'].
  injection He as <-. destruct A as (A1 & A2 & A3 & A4 & A5).
  unfold parseTime. rewrite list_ascii_of_string_of_list_ascii.
  rewrite parseTimeL_formatDT by lia. rewrite A5. reflexivity.
Qed.







(* bulletins *)
Lemma list_ascii_of_string_app (a b : string) :
  list_ascii_of_string (a ++ b) = list_ascii_of_string a ++ list_ascii_of_string b.
Proof. induction a as [|c a IH]; cbn; [reflexivity|]. rewrite IH. reflexivity. Qed.

Lemma isDigitC_not_letter (c : ascii) :
  isDigitC c = true -> ascii_eqb c "F" = false /\ ascii_eqb c "B" = false.
Proof.
  intros H. unfold ascii_eqb.
  split; destruct (ascii_dec c _) as [->|]; try reflexivity; discriminate H.
Qed.

Lemma digitChar_digit (k : Z) : 0 <= k <= 9 -> isDigitC (digitChar k) = true.
Proof. intros Hk. apply (digitChar_ok k Hk). Qed.

(** A URL ending in [_B] and one digit, an optional [F], and [.html] has that digit as its bulletin number, with the found flag set. *)
Theorem getBulletinNumber_suffix (prefix : string) (c : ascii) (f : bool) :
  isDigitC c = true ->
  getBulletinNumber (prefix ++ "_B" ++ String c ((if f then "F" else "") ++ ".html"))
  = (digitVal c, true).
Proof.
  intros Hc. destruct (isDigitC_not_letter c Hc) as [HF _].
  unfold getBulletinNumber.
  rewrite !list_ascii_of_string_app. cbn [list_ascii_of_string].
  destruct f; cbn [list_ascii_of_string app];
    rewrite !rev_app_distr; cbn [rev app]; rewrite <- !app_assoc; cbn [app];
    cbn [startsWith skipn length ascii_eqb]; cbn.
  - unfold digitAfterB. rewrite Hc. reflexivity.
  - rewrite HF. unfold digitAfterB. rewrite Hc. reflexivity.
Qed.

(** A URL ending in [_B] and two digits is not matched by [getBulletinNumber]: it gives bulletin 0, not found. *)
Theorem getBulletinNumber_two_digits (prefix : string) (c1 c2 : ascii) (f : bool) :
  isDigitC c1 = true -> isDigitC c2 = true ->
  getBulletinNumber (prefix ++ "_B" ++ String c1 (String c2 ((if f then "F" else "") ++ ".html")))
  = (0, false).
Proof.
  intros H1 H2. destruct (isDigitC_not_letter c1 H1) as [_ HB1].
  destruct (isDigitC_not_letter c2 H2) as [HF2 _].
  unfold getBulletinNumber.
  rewrite !list_ascii_of_string_app. cbn [list_ascii_of_string].
  destruct f; cbn [list_ascii_of_string app];
    rewrite !rev_app_distr; cbn [rev app]; rewrite <- !app_assoc; cbn [app];
    cbn [startsWith skipn length ascii_eqb]; cbn.
  - unfold digitAfterB. rewrite H2, HB1. reflexivity.
  - rewrite HF2. unfold digitAfterB. rewrite H2, HB1. reflexivity.
Qed.

Lemma getBulletinNumber_two_digits_witness :
  getBulletinNumber (bulletinURL "020000_B10") = (0, false).
Proof.
  change (bulletinURL "020000_B10") with
    ("https://earthquake.phivolcs.dost.gov.ph/2025_Earthquake_Information/October/2025_1015_020000"
     ++ "_B" ++ String "1" (String "0" ((if false then "F" else "") ++ ".html")))%string.
  exact (getBulletinNumber_two_digits
    "https://earthquake.phivolcs.dost.gov.ph/2025_Earthquake_Information/October/2025_1015_020000"
    "1" "0" false eq_refl eq_refl).
Defined.

Lemma getBulletinNumber_suffix_witness :
  getBulletinNumber (bulletinURL "020000_B2") = (2, true).
Proof.
  change (bulletinURL "020000_B2") with
    ("https://earthquake.phivolcs.dost.gov.ph/2025_Earthquake_Information/October/2025_1015_020000"
     ++ "_B" ++ String "2" ((if false then "F" else "") ++ ".html"))%string.
  exact (getBulletinNumber_suffix
    "https://earthquake.phivolcs.dost.gov.ph/2025_Earthquake_Information/October/2025_1015_020000"
    "2" false eq_refl).
Defined.

(** [isRevisedQuake] is asymmetric: if [a] revises [b], then [b] does not revise [a]. *)
Theorem isRevisedQuake_asym (a b : Quake) :
  isRevisedQuake a b = true -> isRevisedQuake b a = false.
Proof.
  unfold isRevisedQuake.
  destruct (getBulletinNumber (Bulletin a)) as [na oka],
           (getBulletinNumber (Bulletin b)) as [nb okb].
  intros H. destruct oka, okb; cbn in *; try discriminate.
  apply andb_true_iff in H as [_ H]. apply Z.ltb_lt in H.
  replace (na <? nb) with false by (symmetry; apply Z.ltb_ge; lia).
  apply andb_false_r.
Qed.




Lemma pruneEntries_snd (cutoff : Z) (m : ledger) :
  snd (pruneEntries cutoff m) = map snd (filter timeParses (fst (pruneEntries cutoff m))).
Proof.
  induction m as [|[k v] m IH]; cbn; [reflexivity|].
  destruct (pruneEntries cutoff m) as [mr s] eqn:E. cbn in IH.
  destruct (parseTime (DateTime v)) as [t|] eqn:Ht.
  - destruct (t <? cutoff); cbn; [exact IH|].
    unfold timeParses at 1. cbn [snd]. rewrite Ht. cbn. rewrite IH. reflexivity.
  - cbn. unfold timeParses at 1. cbn [snd]. rewrite Ht. exact IH.
Qed.

(** The slice returned by [mapEqToSlice] holds, up to order, the values of its kept map whose time parses. *)
Theorem mapEqToSlice_values (now : civil) (m : ledger) :
  Permutation (snd (mapEqToSlice now m)) (map snd (filter timeParses (fst (mapEqToSlice now m)))).
Proof.
  unfold mapEqToSlice.
  pose proof (pruneEntries_snd (twoMonthsBefore now) m) as H.
  destruct (pruneEntries (twoMonthsBefore now) m) as [m' s]. cbn in *.
  rewrite sortSlice_perm. rewrite H. reflexivity.
Qed.

(* heuristics *)
Lemma firstRevised_in (cur : Quake) (m : ledger) (p : Quake) :
  firstRevised cur m = Some p -> exists k, In (k, p) m.
Proof.
  induction m as [|[k v] m IH]; cbn; [discriminate|].
  destruct (isRevisedQuake cur v).
  - intros H. injection H as <-. exists k. left. reflexivity.
  - intros H. destruct (IH H) as [k' Hk]. exists k'. right. exact Hk.
Qed.

Lemma firstSimilar_in (cur : Quake) (l : list Quake) (p : Quake) :
  firstSimilar cur l = Some p -> In p l.
Proof.
  induction l as [|v l IH]; cbn; [discriminate|].
  destruct (_ && _).
  - intros H. injection H as <-. left. reflexivity.
  - intros H. right. exact (IH H).
Qed.

Lemma pruneEntries_slice_in (cutoff : Z) (m : ledger) (q : Quake) :
  In q (snd (pruneEntries cutoff m)) -> exists k, In (k, q) m.
Proof.
  induction m as [|[k v] m IH]; cbn; [tauto|].
  destruct (pruneEntries cutoff m) as [mr s]. cbn in IH.
  assert (In q s -> exists k0, In (k0, q) ((k, v) :: m)) as Hs
    by (intros Hq; destruct (IH Hq) as [k0 Hk0]; exists k0; right; exact Hk0).
  destruct (parseTime (DateTime v)) as [t|]; cbn; [|exact Hs].
  destruct (t <? cutoff); cbn; [exact Hs|].
  intros [<- | Hq]; [exists k; left; reflexivity | exact (Hs Hq)].
Qed.

(** [determinePastQuakeThroughHeuristics] returns the pruned cache map; a past quake it reports is a value of the cache with a lower bulletin number than the current quake; when it reports none, the quake is the zero [Quake]. *)
Theorem determinePast_sound (now : civil) (lf : ledger) (cur : Quake)
    (m' : ledger) (p : Quake) (b : bool) :
  determinePastQuakeThroughHeuristics now lf cur = (m', (p, b)) ->
  m' = fst (mapEqToSlice now lf) /\
  (b = true -> (exists k, In (k, p) lf) /\
               fst (getBulletinNumber (Bulletin p)) < fst (getBulletinNumber (Bulletin cur))) /\
  (b = false -> p = zeroQuake).
Proof.
  unfold determinePastQuakeThroughHeuristics.
  pose proof (pruneEntries_slice_in (twoMonthsBefore now) lf) as Hsl.
  unfold mapEqToSlice in *.
  destruct (pruneEntries (twoMonthsBefore now) lf) as [m0 s] eqn:E. cbn in Hsl |- *.
  destruct (firstSimilar cur _) as [q|] eqn:Hs.
  - intros H. injection H as <- <- <-.
    split; [reflexivity|]. split; [|discriminate]. intros _. split.
    + apply firstSimilar_in in Hs. unfold filterQuakesByDateTime in Hs.
      apply filter_In in Hs as [Hs _]. apply Hsl.
      apply (Permutation_in _ (sortSlice_perm s)). exact Hs.
    + eapply firstSimilar_sound. exact Hs.
  - destruct (firstRevised cur lf) as [q|] eqn:Hr.
    + intros H. injection H as <- <- <-.
      split; [reflexivity|]. split; [|discriminate]. intros _. split.
      * eapply firstRevised_in. exact Hr.
      * apply isRevisedQuake_sound. eapply firstRevised_sound. exact Hr.
    + intros H. injection H as <- <- <-.
      split; [reflexivity|]. split; [discriminate|]. intros _. reflexivity.
Qed.

Lemma determinePast_sound_witness :
  determinePastQuakeThroughHeuristics ex_now c1_ledger c1_cur = (c1_ledger, (c1_q, true)) /\
  exists k, In (k, c1_q) c1_ledger.
Proof.
  split; [vm_compute; reflexivity|].
  apply (proj1 (proj1 (proj2 (determinePast_sound ex_now c1_ledger c1_cur c1_ledger c1_q true
                                 ltac:(vm_compute; reflexivity))) eq_refl)).
Defined.

(* files *)
Lemma mapLookup_insert (k k' : string) (v : Quake) (m : ledger) :
  mapLookup k (mapInsert k' v m) = if String.eqb k k' then Some v else mapLookup k m.
Proof.
  induction m as [|[k0 v0] m IH]; cbn.
  - destruct (String.eqb k k'); reflexivity.
  - destruct (String.eqb_spec k' k0) as [<-|Hne]; cbn.
    + destruct (String.eqb k k'); reflexivity.
    + rewrite IH. destruct (String.eqb_spec k k') as [->|]; [|reflexivity].
      apply String.eqb_neq in Hne. rewrite Hne. reflexivity.
Qed.

Lemma mapInsert_keys (k x : string) (v : Quake) (m : ledger) :
  In x (map fst (mapInsert k v m)) -> x = k \/ In x (map fst m).
Proof.
  induction m as [|[k0 v0] m IH]; cbn.
  - intros [<-|[]]. left. reflexivity.
  - destruct (String.eqb_spec k k0) as [<-|]; cbn.
    + intros [<-|H]; [left; reflexivity | right; right; exact H].
    + intros [<-|H]; [right; left; reflexivity|].
      destruct (IH H); [left | right; right]; assumption.
Qed.

Lemma mapInsert_nodup (k : string) (v : Quake) (m : ledger) :
  NoDup (map fst m) -> NoDup (map fst (mapInsert k v m)).
Proof.
  induction m as [|[k0 v0] m IH]; cbn; intros Hnd.
  - constructor; [tauto | constructor].
  - inversion Hnd as [|? ? Hni Hnd']; subst.
    destruct (String.eqb_spec k k0) as [<-|Hne]; cbn.
    + constructor; assumption.
    + constructor; [|apply IH; exact Hnd'].
      intros Hin. destruct (mapInsert_keys k k0 v m Hin); [congruence | contradiction].
Qed.

Lemma readAll_fold (kf : Quake -> string) (qs : list Quake) :
  forall (m : ledger) (k : string),
  mapLookup k (fold_left (fun m q => mapInsert (kf q) q m) qs m) =
  match hd_error (rev (filter (fun q => String.eqb (kf q) k) qs)) with
  | Some q => Some q
  | None => mapLookup k m
  end.
Proof.
  induction qs as [|q qs IH]; intros m k; cbn; [reflexivity|].
  rewrite IH, mapLookup_insert.
  destruct (String.eqb_spec (kf q) k) as [<-|Hne]; cbn.
  - rewrite String.eqb_refl.
    destruct (rev (filter _ qs)) as [|q' r]; reflexivity.
  - replace (String.eqb k (kf q)) with false
      by (symmetry; apply String.eqb_neq; congruence).
    reflexivity.
Qed.

Lemma readAll_fold_nodup (kf : Quake -> string) (qs : list Quake) :
  forall (m : ledger), NoDup (map fst m) ->
  NoDup (map fst (fold_left (fun m q => mapInsert (kf q) q m) qs m)).
Proof.
  induction qs as [|q qs IH]; intros m Hnd; cbn; [exact Hnd|].
  apply IH. apply mapInsert_nodup. exact Hnd.
Qed.

(** The map [readAllQuakesFromFile] builds has no duplicate keys, and looking up a key gives the last quake of the file with that key; a missing or unreadable file gives the empty map. *)
Theorem readAllQuakesFromFile_lookup (file : option (list Quake)) (kf : Quake -> string) (k : string) :
  NoDup (map fst (readAllQuakesFromFile file kf)) /\
  mapLookup k (readAllQuakesFromFile file kf) =
  match file with
  | None => None
  | Some quakes => hd_error (rev (filter (fun q => String.eqb (kf q) k) quakes))
  end.
Proof.
  destruct file as [quakes|]; cbn; [|split; [constructor | reflexivity]].
  split; [apply readAll_fold_nodup; constructor|].
  rewrite readAll_fold. destruct (hd_error _); reflexivity.
Qed.

(* the poll loop *)
Section LoopFacts.

Variable PF : string -> float64 * bool.
Variables rlat rlon rrad : R.


Lemma determinePast_fst (now : civil) (lf : ledger) (q : Quake) :
  fst (determinePastQuakeThroughHeuristics now lf q) = fst (mapEqToSlice now lf).
Proof.
  unfold determinePastQuakeThroughHeuristics.
  destruct (mapEqToSlice now lf) as [m' s]. reflexivity.
Qed.

Lemma classifyQuake_ledger_sub (now : civil) (lf posted : ledger) (q : Quake) :
  forall kv, In kv (fst (classifyQuake PF rlat rlon rrad now lf posted q)) -> In kv lf.
Proof.
  intros kv.
  assert (fst (classifyQuake PF rlat rlon rrad now lf posted q) = fst (resolvePrevious now lf q))
    as -> by (unfold classifyQuake; destruct (resolvePrevious now lf q) as [? [? ?]]; reflexivity).
  unfold resolvePrevious.
  destruct (mapLookup (quakeOriginKey q) lf); [cbn; tauto|].
  destruct (heuristicsEligible q); [|cbn; tauto].
  rewrite determinePast_fst. unfold mapEqToSlice.
  pose proof (pruneEntries_map_sub (twoMonthsBefore now) lf kv) as Hs.
  destruct (pruneEntries (twoMonthsBefore now) lf) as [m' s]. cbn in *. exact Hs.
Qed.

Lemma processQuake_inv (now : civil) (posted : ledger) (st : loopState) (q : Quake) :
  postedInv st ->
  postedInv (processQuake PF rlat rlon rrad now posted st q) /\
  (forall x, In x (postedQuakesToSave (processQuake PF rlat rlon rrad now posted st q)) ->
             In x (postedQuakesToSave st) \/ x = q) /\
  (forall kv, In kv (lastFetch (processQuake PF rlat rlon rrad now posted st q)) ->
              In kv (lastFetch st)).
Proof.
  intros Hinv. unfold processQuake.
  pose proof (classifyQuake_ledger_sub now (lastFetch st) posted q) as Hsub.
  destruct (classifyQuake PF rlat rlon rrad now (lastFetch st) posted q) as [lf o].
  cbn in Hsub. unfold postedInv in *.
  destruct o as [|old|]; cbn; (split; [|split]); try exact Hsub.
  - apply Permutation_trans with ((changed st ++ map fst (updated st)) ++ [q]);
      [apply Permutation_app_tail; exact Hinv|].
    rewrite <- !app_assoc. apply Permutation_app_head. apply Permutation_app_comm.
  - intros x Hx. apply in_app_or in Hx as [Hx|[<-|[]]]; [left|right]; auto.
  - rewrite map_app. cbn. rewrite app_assoc. apply Permutation_app_tail. exact Hinv.
  - intros x Hx. apply in_app_or in Hx as [Hx|[<-|[]]]; [left|right]; auto.
  - exact Hinv.
  - intros x Hx. left. exact Hx.
Qed.

Lemma fold_processQuake_inv (now : civil) (posted : ledger) (L : list Quake) :
  forall st, postedInv st ->
  let st' := fold_left (processQuake PF rlat rlon rrad now posted) L st in
  postedInv st' /\
  (forall x, In x (postedQuakesToSave st') -> In x (postedQuakesToSave st) \/ In x L) /\
  (forall kv, In kv (lastFetch st') -> In kv (lastFetch st)).
Proof.
  induction L as [|q L IH]; intros st Hinv; cbn.
  - split; [exact Hinv|]. split; [intros x Hx; left; exact Hx | tauto].
  - destruct (processQuake_inv now posted st q Hinv) as (H1 & H2 & H3).
    destruct (IH _ H1) as (G1 & G2 & G3).
    split; [exact G1|]. split.
    + intros x Hx. destruct (G2 x Hx) as [Hy|Hy]; [|right; right; exact Hy].
      destruct (H2 x Hy) as [Hz| ->]; [left; exact Hz | right; left; reflexivity].
    + intros kv Hkv. apply H3, G3, Hkv.
Qed.

(** After the loop of [main] over the latest quakes, the quakes to save as posted are exactly the new ones and the updated ones, up to order; each of them comes from the latest list; and every entry left in the cache map was already in it. *)
Theorem classifyAll_invariants (now : civil) (lf posted : ledger) (L : list Quake) :
  let st := classifyAll PF rlat rlon rrad now lf posted L in
  Permutation (postedQuakesToSave st) (changed st ++ map fst (updated st)) /\
  (forall q, In q (postedQuakesToSave st) -> In q L) /\
  (forall kv, In kv (lastFetch st) -> In kv lf).
Proof.
  unfold classifyAll.
  destruct (fold_processQuake_inv now posted L (mkLoopState lf [] [] []) ltac:(constructor))
    as (H1 & H2 & H3).
  split; [exact H1|]. split.
  - intros q Hq. destruct (H2 q Hq) as [[]|Hl]. exact Hl.
  - exact H3.
Qed.

End LoopFacts.

Section CycleFacts.

Variable PF : string -> float64 * bool.
Variables rlat rlon rrad : R.

Lemma quakeChanged_refl (q : Quake) : quakeChanged q q = false.
Proof. unfold quakeChanged. rewrite !String.eqb_refl. reflexivity. Qed.

Lemma classifyQuake_hit (now : civil) (lf posted : ledger) (q p : Quake) :
  mapLookup (quakeOriginKey q) lf = Some p ->
  classifyQuake PF rlat rlon rrad now lf posted q =
  (lf, if quakeChanged p q && negb (updatedQuakeHasBeenPosted posted q) &&
          isCurrentAndPastQSignificant PF rlat rlon rrad q p
       then UpdatedQuake p else NotPosted).
Proof.
  intros H. unfold classifyQuake, resolvePrevious. rewrite H. reflexivity.
Qed.

Lemma fold_all_hit (now : civil) (posted : ledger) (L : list Quake) :
  forall st, (forall q, In q L -> mapLookup (quakeOriginKey q) (lastFetch st) <> None) ->
  let st' := fold_left (processQuake PF rlat rlon rrad now posted) L st in
  lastFetch st' = lastFetch st /\ changed st' = changed st /\
  ((forall q, In q L -> mapLookup (quakeOriginKey q) (lastFetch st) = Some q) -> st' = st).
Proof.
  induction L as [|q L IH]; intros st Hhit; cbn; [auto|].
  destruct (mapLookup (quakeOriginKey q) (lastFetch st)) as [p|] eqn:Hp;
    [|exfalso; apply (Hhit q); [left; reflexivity | exact Hp]].
  destruct st as [lf0 c0 u0 p0]. cbn [lastFetch changed] in *.
  assert (E : processQuake PF rlat rlon rrad now posted (mkLoopState lf0 c0 u0 p0) q =
              if quakeChanged p q && negb (updatedQuakeHasBeenPosted posted q) &&
                 isCurrentAndPastQSignificant PF rlat rlon rrad q p
              then mkLoopState lf0 c0 (u0 ++ [(q, p)]) (p0 ++ [q])
              else mkLoopState lf0 c0 u0 p0).
  { unfold processQuake. cbn [lastFetch changed updated postedQuakesToSave].
    rewrite (classifyQuake_hit now _ posted q p Hp).
    destruct (_ && _ && _); reflexivity. }
  rewrite E. clear E.
  destruct (quakeChanged p q && _ && _) eqn:Hc.
  - destruct (IH (mkLoopState lf0 c0 (u0 ++ [(q, p)]) (p0 ++ [q])))
      as (H1 & H2 & H3); [intros x Hx; apply Hhit; right; exact Hx|].
    cbn [lastFetch changed] in H1, H2.
    split; [exact H1|]. split; [exact H2|].
    intros Hall. exfalso. rewrite (Hall q (or_introl eq_refl)) in Hp.
    injection Hp as <-. rewrite quakeChanged_refl in Hc. discriminate Hc.
  - destruct (IH (mkLoopState lf0 c0 u0 p0))
      as (H1 & H2 & H3); [intros x Hx; apply Hhit; right; exact Hx|].
    split; [exact H1|]. split; [exact H2|].
    intros Hall. apply H3. intros x Hx. apply Hall. right. exact Hx.
Qed.

Lemma filter_none (f : Quake -> bool) (L : list Quake) :
  (forall y, In y L -> f y = false) -> filter f L = [].
Proof.
  induction L as [|y L IH]; cbn; intros H; [reflexivity|].
  rewrite (H y (or_introl eq_refl)). apply IH. intros z Hz. apply H. right. exact Hz.
Qed.

Lemma filter_key_nodup (kf : Quake -> string) (L : list Quake) (q : Quake) :
  NoDup (map kf L) -> In q L -> filter (fun x => String.eqb (kf x) (kf q)) L = [q].
Proof.
  induction L as [|x L IH]; cbn; [tauto|]. intros Hnd Hin.
  inversion Hnd as [|? ? Hni Hnd']; subst.
  destruct Hin as [<-|Hin].
  - rewrite String.eqb_refl. f_equal.
    apply filter_none. intros y Hy. apply String.eqb_neq.
    intros E. apply Hni. rewrite <- E. apply in_map. exact Hy.
  - replace (String.eqb (kf x) (kf q)) with false.
    + apply IH; assumption.
    + symmetry. apply String.eqb_neq. intros E. apply Hni. rewrite E.
      apply in_map. exact Hin.
Qed.

Lemma readAll_page_hit (L : list Quake) (q : Quake) :
  In q L -> mapLookup (quakeOriginKey q) (readAllQuakesFromFile (Some L) quakeOriginKey) <> None.
Proof.
  intros Hin. cbn. rewrite readAll_fold.
  assert (In q (filter (fun x => String.eqb (quakeOriginKey x) (quakeOriginKey q)) L)) as Hf
    by (apply filter_In; split; [exact Hin | apply String.eqb_refl]).
  destruct (rev (filter _ L)) as [|y r] eqn:E; cbn; [|discriminate].
  apply (f_equal (@rev Quake)) in E. rewrite rev_involutive in E. rewrite E in Hf. destruct Hf.
Qed.

Lemma readAll_page_self (L : list Quake) (q : Quake) :
  NoDup (map quakeOriginKey L) -> In q L ->
  mapLookup (quakeOriginKey q) (readAllQuakesFromFile (Some L) quakeOriginKey) = Some q.
Proof.
  intros Hnd Hin. cbn. rewrite readAll_fold.
  rewrite (filter_key_nodup quakeOriginKey L q Hnd Hin). reflexivity.
Qed.

(** If the latest list is the one the cache file holds, the loop of [main] reports no new quake. *)
Theorem classifyAll_cached_page_no_new (now : civil) (posted : ledger) (L : list Quake) :
  changed (classifyAll PF rlat rlon rrad now (readAllQuakesFromFile (Some L) quakeOriginKey)
                       posted L) = [].
Proof.
  unfold classifyAll.
  destruct (fold_all_hit now posted L
              (mkLoopState (readAllQuakesFromFile (Some L) quakeOriginKey) [] [] []))
    as (_ & H & _).
  - intros q Hq. apply readAll_page_hit. exact Hq.
  - exact H.
Qed.

(** A poll whose page equals the cached file (with distinct origin keys) sends nothing and leaves the posted file untouched; the cache file is rewritten with the same list. *)
Theorem pollCycle_cached_page_silent (now : civil) (postedFile : option (list Quake))
    (L : list Quake) :
  NoDup (map quakeOriginKey L) ->
  pollCycle PF rlat rlon rrad now (Some L) postedFile L = mkCycleResult [] None L.
Proof.
  intros Hnd. unfold pollCycle, classifyAll.
  destruct (fold_all_hit now (readAllQuakesFromFile postedFile quakeLocationKey) L
              (mkLoopState (readAllQuakesFromFile (Some L) quakeOriginKey) [] [] []))
    as (_ & _ & H).
  - intros q Hq. apply readAll_page_hit. exact Hq.
  - rewrite H; [reflexivity|]. intros q Hq. apply readAll_page_self; assumption.
Qed.

End CycleFacts.

Lemma pruneEntries_slice_keep (cutoff : Z) (m : ledger) (k : string) (v : Quake) (t : Z) :
  In (k, v) m -> parseTime (DateTime v) = Some t -> cutoff <= t ->
  In v (snd (pruneEntries cutoff m)).
Proof.
  induction m as [|[k' v'] m IH]; cbn; [tauto|]. intros Hin Hp Hc.
  destruct (pruneEntries cutoff m) as [mr s]. cbn in IH.
  destruct Hin as [E|Hin].
  - injection E as -> ->. rewrite Hp.
    replace (t <? cutoff) with false by (symmetry; apply Z.ltb_ge; exact Hc).
    left. reflexivity.
  - destruct (parseTime (DateTime v')) as [t'|]; cbn; [destruct (t' <? cutoff); cbn|];
      auto.
Qed.

Section PostedFile.

Variable PF : string -> float64 * bool.
Variables rlat rlon rrad : R.

(** A poll always writes the latest list to the cache file; it writes the posted file exactly when it sends a notification, and each notified quake is then in that file. *)
Theorem pollCycle_notified_saved (now : civil) (cacheFile postedFile : option (list Quake))
    (L : list Quake) :
  let r := pollCycle PF rlat rlon rrad now cacheFile postedFile L in
  cacheFileOut r = L /\
  (postedFileOut r = None <-> notifications r = []) /\
  (forall f, postedFileOut r = Some f ->
     forall n, In n (notifications r) -> In (fst (fst n)) f).
Proof.
  unfold pollCycle.
  set (lf := readAllQuakesFromFile cacheFile quakeOriginKey).
  set (posted := readAllQuakesFromFile postedFile quakeLocationKey).
  destruct (fold_processQuake_inv PF rlat rlon rrad now posted L (mkLoopState lf [] [] [])
              ltac:(constructor)) as (Hinv & _ & _).
  fold (classifyAll PF rlat rlon rrad now lf posted L) in Hinv.
  set (st := classifyAll PF rlat rlon rrad now lf posted L) in *.
  unfold postedInv in Hinv.
  destruct (length (changed st) =? 0)%nat eqn:Ec, (length (updated st) =? 0)%nat eqn:Eu;
    cbn [andb cacheFileOut postedFileOut notifications].
  - split; [reflexivity|]. split; [tauto|]. discriminate.
  - split; [reflexivity|]. split.
    + split; [discriminate|]. intros H. apply app_eq_nil in H as [_ H].
      apply map_eq_nil in H. apply (f_equal (@length _)) in H.
      rewrite length_rev in H. cbn in H. rewrite H in Eu. discriminate.
    + intros f Hf. injection Hf as <-. intros n Hn. apply in_or_app. left.
      apply (Permutation_in _ (Permutation_sym Hinv)). apply in_app_or in Hn as [Hn|Hn];
        apply in_map_iff in Hn as [x [<- Hx]]; apply in_rev in Hx; cbn;
        apply in_or_app; [left | right; apply in_map]; exact Hx.
  - split; [reflexivity|]. split.
    + split; [discriminate|]. intros H. apply app_eq_nil in H as [H _].
      apply map_eq_nil in H. apply (f_equal (@length _)) in H.
      rewrite length_rev in H. cbn in H. rewrite H in Ec. discriminate.
    + intros f Hf. injection Hf as <-. intros n Hn. apply in_or_app. left.
      apply (Permutation_in _ (Permutation_sym Hinv)). apply in_app_or in Hn as [Hn|Hn];
        apply in_map_iff in Hn as [x [<- Hx]]; apply in_rev in Hx; cbn;
        apply in_or_app; [left | right; apply in_map]; exact Hx.
  - split; [reflexivity|]. split.
    + split; [discriminate|]. intros H. apply app_eq_nil in H as [H _].
      apply map_eq_nil in H. apply (f_equal (@length _)) in H.
      rewrite length_rev in H. cbn in H. rewrite H in Ec. discriminate.
    + intros f Hf. injection Hf as <-. intros n Hn. apply in_or_app. left.
      apply (Permutation_in _ (Permutation_sym Hinv)). apply in_app_or in Hn as [Hn|Hn];
        apply in_map_iff in Hn as [x [<- Hx]]; apply in_rev in Hx; cbn;
        apply in_or_app; [left | right; apply in_map]; exact Hx.
Qed.

(** When a poll writes the posted file, every previously posted quake that is at most two months old is kept in it; an older or unparsable one is kept only if it is in the latest list. *)
Theorem pollCycle_posted_retention (now : civil) (cacheFile postedFile : option (list Quake))
    (L f : list Quake) :
  postedFileOut (pollCycle PF rlat rlon rrad now cacheFile postedFile L) = Some f ->
  forall k v, In (k, v) (readAllQuakesFromFile postedFile quakeLocationKey) ->
  ((exists t, parseTime (DateTime v) = Some t /\ twoMonthsBefore now <= t) -> In v f) /\
  (~ (exists t, parseTime (DateTime v) = Some t /\ twoMonthsBefore now <= t) ->
     In v f -> In v L).
Proof.
  unfold pollCycle.
  set (lf := readAllQuakesFromFile cacheFile quakeOriginKey).
  set (posted := readAllQuakesFromFile postedFile quakeLocationKey).
  destruct (fold_processQuake_inv PF rlat rlon rrad now posted L (mkLoopState lf [] [] [])
              ltac:(constructor)) as (_ & Hsub & _).
  fold (classifyAll PF rlat rlon rrad now lf posted L) in Hsub.
  set (st := classifyAll PF rlat rlon rrad now lf posted L) in *.
  destruct (_ && _); cbn [postedFileOut]; [discriminate|].
  intros Hf. injection Hf as <-. intros k v Hin.
  unfold mapEqToSlice.
  pose proof (pruneEntries_slice (twoMonthsBefore now) posted v) as Hsl.
  pose proof (pruneEntries_slice_keep (twoMonthsBefore now) posted k v) as Hkeep.
  destruct (pruneEntries (twoMonthsBefore now) posted) as [m' s]. cbn in Hsl, Hkeep |- *.
  split.
  - intros (t & Ht & Hc). apply in_or_app. right.
    apply (Permutation_in _ (Permutation_sym (sortSlice_perm s))).
    exact (Hkeep t Hin Ht Hc).
  - intros Hn Hv. apply in_app_or in Hv as [Hv|Hv].
    + destruct (Hsub v Hv) as [[]|Hl]. exact Hl.
    + exfalso. apply Hn. apply Hsl.
      apply (Permutation_in _ (sortSlice_perm s)). exact Hv.
Qed.

End PostedFile.

Lemma extractDateTimeFromURL_parses_witness :
  findStamp (list_ascii_of_string (Bulletin c1_cur)) = Some (2025, 10, 15, 2, 0, 0) /\
  extractDateTimeFromURL (Bulletin c1_cur) = Some "15 October 2025 - 10:00:00 AM"%string /\
  parseTime "15 October 2025 - 10:00:00 AM" = Some (dateNs 2025 10 15 2 0 0 0 + 8 * 3600 * 1000000000).
Proof.
  split; [vm_compute; reflexivity|]. split; [vm_compute; reflexivity|].
  apply (extractDateTimeFromURL_parses (Bulletin c1_cur) "15 October 2025 - 10:00:00 AM"
           2025 10 15 2 0 0 ltac:(vm_compute; reflexivity) ltac:(vm_compute; reflexivity)).
  vm_compute. intros H. discriminate H.
Defined.

Lemma isRevisedQuake_asym_witness :
  isRevisedQuake c1_cur c1_p = true /\ isRevisedQuake c1_p c1_cur = false.
Proof.
  split; [vm_compute; reflexivity|].
  apply isRevisedQuake_asym. vm_compute. reflexivity.
Defined.

Lemma pollCycle_cached_page_silent_witness :
  NoDup (map quakeOriginKey [w_first; c1_cur]) /\
  pollCycle parseDecimal DEFAULT_REF_POINT_LAT DEFAULT_REF_POINT_LON DEFAULT_REF_RADIUS_KM
            ex_now (Some [w_first; c1_cur]) None [w_first; c1_cur]
  = mkCycleResult [] None [w_first; c1_cur].
Proof.
  assert (Hnd : NoDup (map quakeOriginKey [w_first; c1_cur])).
  { constructor; [|constructor; [intros []|constructor]].
    intros [H|[]]. vm_compute in H. discriminate H. }
  split; [exact Hnd|].
  apply (pollCycle_cached_page_silent parseDecimal DEFAULT_REF_POINT_LAT DEFAULT_REF_POINT_LON
           DEFAULT_REF_RADIUS_KM ex_now None [w_first; c1_cur] Hnd).
Defined.

Lemma pollCycle_posted_retention_witness :
  postedFileOut (pollCycle parseDecimal DEFAULT_REF_POINT_LAT DEFAULT_REF_POINT_LON
                           DEFAULT_REF_RADIUS_KM ex_now (Some []) (Some [c6_stale; w_recent])
                           [w_first])
  = Some [w_first; w_recent] /\
  In w_recent [w_first; w_recent].
Proof.
  split; [vm_compute; reflexivity|].
  apply (proj1 (pollCycle_posted_retention parseDecimal DEFAULT_REF_POINT_LAT
           DEFAULT_REF_POINT_LON DEFAULT_REF_RADIUS_KM ex_now (Some []) (Some [c6_stale; w_recent])
           [w_first] [w_first; w_recent] ltac:(vm_compute; reflexivity)
           (quakeLocationKey w_recent) w_recent ltac:(vm_compute; right; left; reflexivity))).
  exists 63896029200000000000. split; [vm_compute; reflexivity|].
  vm_compute. intros H. discriminate H.
Defined.

Lemma ascii_eqb_nondigit (x c : ascii) :
  isDigitC c = true -> isDigitC x = false -> ascii_eqb x c = false.
Proof.
  intros Hc Hx. unfold ascii_eqb. destruct (ascii_dec x c) as [<-|]; congruence.
Qed.

Ltac digit_facts :=
  repeat match goal with
  | H : isDigitC ?c = true |- context [isDigitC ?c] => rewrite H
  | H : isDigitC ?c = true |- context [ascii_eqb ?x ?c] =>
      rewrite (ascii_eqb_nondigit x c H eq_refl)
  end.

Lemma find_startsWith_none (encs : list (list ascii)) (c : ascii) (r : list ascii) :
  forallb (fun e => match e with x :: _ => negb (ascii_eqb x c) | [] => false end) encs = true ->
  find (fun e => startsWith e (c :: r)) encs = None.
Proof.
  induction encs as [|e encs IH]; intros H; [reflexivity|].
  cbn in H. apply andb_true_iff in H as [He H].
  destruct e as [|x e]; [discriminate|]. cbn.
  apply negb_true_iff in He. rewrite He. cbn. apply IH, H.
Qed.

Lemma trimLeftWith_keep (encs : list (list ascii)) (n : nat) (c : ascii) (r : list ascii) :
  forallb (fun e => match e with x :: _ => negb (ascii_eqb x c) | [] => false end) encs = true ->
  trimLeftWith encs n (c :: r) = c :: r.
Proof.
  intros H. destruct n; [reflexivity|]. cbn [trimLeftWith].
  rewrite find_startsWith_none by exact H. reflexivity.
Qed.

Lemma TrimSpace_keep (c : ascii) (r : list ascii) :
  isDigitC c = true -> hd_error (rev (c :: r)) = Some "M"%char -> TrimSpace (c :: r) = c :: r.
Proof.
  intros Hc Hr. unfold TrimSpace.
  rewrite trimLeftWith_keep.
  - destruct (rev (c :: r)) as [|z r'] eqn:E; [discriminate|].
    injection Hr as ->. rewrite trimLeftWith_keep by reflexivity.
    rewrite <- E. apply rev_involutive.
  - unfold spaceEncodings. cbn. digit_facts. reflexivity.
Qed.

Lemma normalize_core (c1 c2 y1 y2 y3 y4 h1 h2 m1 m2 p : ascii) (mon : list ascii) :
  isDigitC c1 = true -> isDigitC c2 = true -> isDigitC y1 = true -> isDigitC y2 = true ->
  isDigitC y3 = true -> isDigitC y4 = true -> isDigitC h1 = true -> isDigitC h2 = true ->
  isDigitC m1 = true -> isDigitC m2 = true -> (p = "A"%char \/ p = "P"%char) ->
  In mon (map list_ascii_of_string longMonthNames) ->
  list_ascii_of_string (normalizeDateTime (string_of_list_ascii
    ([c1; c2] ++ [" "%char] ++ mon ++ [" "%char] ++ [y1; y2; y3; y4] ++
     [" "%char; "-"%char; " "%char] ++ [h1; h2] ++ [":"%char] ++ [m1; m2] ++
     [" "%char] ++ [p; "M"%char]))) =
  [c1; c2] ++ [" "%char] ++ mon ++ [" "%char] ++ [y1; y2; y3; y4] ++
  [" "%char; "-"%char; " "%char] ++ [h1; h2] ++ [":"%char] ++ [m1; m2] ++
  [":"%char] ++ ["0"%char; "0"%char] ++ [" "%char] ++ [p; "M"%char].
Proof.
  intros Hc1 Hc2 Hy1 Hy2 Hy3 Hy4 Hh1 Hh2 Hm1 Hm2 Hp Hmon.
  cbn in Hmon.
  destruct Hp as [-> | ->];
  repeat destruct Hmon as [<- | Hmon]; try contradiction;
  unfold normalizeDateTime; rewrite list_ascii_of_string_of_list_ascii; cbn [app list_ascii_of_string];
  (rewrite TrimSpace_keep by (exact Hc1 || reflexivity));
  cbn; repeat progress (digit_facts; cbn); rewrite ?list_ascii_of_string_of_list_ascii; reflexivity.
Qed.

Lemma monthName_in (mo : Z) :
  1 <= mo <= 12 -> In (list_ascii_of_string (monthName mo)) (map list_ascii_of_string longMonthNames).
Proof.
  intros Hm.
  assert (mo = 1 \/ mo = 2 \/ mo = 3 \/ mo = 4 \/ mo = 5 \/ mo = 6 \/ mo = 7 \/
          mo = 8 \/ mo = 9 \/ mo = 10 \/ mo = 11 \/ mo = 12) as Hc by lia.
  repeat destruct Hc as [-> | Hc]; try (subst mo); cbn; tauto.
Qed.

Lemma normalize_tableTime (y mo d h mi : Z) :
  0 <= y < 10000 -> 1 <= mo <= 12 -> 1 <= d <= 31 -> 0 <= h < 24 -> 0 <= mi < 60 ->
  list_ascii_of_string (normalizeDateTime (string_of_list_ascii (tableTime y mo d h mi))) =
  formatDT y mo d h mi 0.
Proof.
  intros Hy Hm Hd Hh Hmi.
  unfold tableTime, formatDT.
  set (hr := (if h mod 12 =? 0 then 12 else h mod 12)%Z).
  assert (Hhr : 1 <= hr <= 12).
  { subst hr. destruct (Z.eqb_spec (h mod 12) 0); Z.div_mod_to_equations; lia. }
  rewrite (appendInt_2 d), (appendInt_4 y), (appendInt_2 hr), (appendInt_2 mi) by lia.
  change (appendInt 0 2) with ["0"%char; "0"%char].
  unfold pad2, pad4.
  destruct (digitChar_ok (d / 10)) as [D1 _]; [Z.div_mod_to_equations; lia|].
  destruct (digitChar_ok (d mod 10)) as [D2 _]; [Z.div_mod_to_equations; lia|].
  destruct (digitChar_ok (y / 1000)) as [Y1 _]; [Z.div_mod_to_equations; lia|].
  destruct (digitChar_ok (y / 100 mod 10)) as [Y2 _]; [Z.div_mod_to_equations; lia|].
  destruct (digitChar_ok (y / 10 mod 10)) as [Y3 _]; [Z.div_mod_to_equations; lia|].
  destruct (digitChar_ok (y mod 10)) as [Y4 _]; [Z.div_mod_to_equations; lia|].
  destruct (digitChar_ok (hr / 10)) as [H1 _]; [Z.div_mod_to_equations; lia|].
  destruct (digitChar_ok (hr mod 10)) as [H2 _]; [Z.div_mod_to_equations; lia|].
  destruct (digitChar_ok (mi / 10)) as [M1 _]; [Z.div_mod_to_equations; lia|].
  destruct (digitChar_ok (mi mod 10)) as [M2 _]; [Z.div_mod_to_equations; lia|].
  destruct (12 <=? h);
  apply normalize_core; auto using monthName_in.
Qed.

(** A time as the table shows it, [DD Month YYYY - hh:mm AM], is normalized by [normalizeDateTime] into a string that parses to that minute with zero seconds. *)
Theorem normalizeDateTime_tableTime_parses (y mo d h mi : Z) :
  0 <= y < 10000 -> 1 <= mo <= 12 -> 1 <= d <= daysIn mo y -> 0 <= h < 24 -> 0 <= mi < 60 ->
  parseTime (normalizeDateTime (string_of_list_ascii (tableTime y mo d h mi))) =
  Some (dateNs y mo d h mi 0 0).
Proof.
  intros Hy Hm Hd Hh Hmi.
  pose proof (daysIn_range mo y Hm) as Hdi.
  unfold parseTime. rewrite normalize_tableTime by lia.
  apply parseTimeL_formatDT; lia.
Qed.

Lemma normalize_seconds_core (c1 c2 y1 y2 y3 y4 h1 h2 m1 m2 s1 s2 p : ascii) (mon : list ascii) :
  isDigitC c1 = true -> isDigitC c2 = true -> isDigitC y1 = true -> isDigitC y2 = true ->
  isDigitC y3 = true -> isDigitC y4 = true -> isDigitC h1 = true -> isDigitC h2 = true ->
  isDigitC m1 = true -> isDigitC m2 = true -> isDigitC s1 = true -> isDigitC s2 = true ->
  (p = "A"%char \/ p = "P"%char) ->
  In mon (map list_ascii_of_string longMonthNames) ->
  let l := [c1; c2] ++ [" "%char] ++ mon ++ [" "%char] ++ [y1; y2; y3; y4] ++
     [" "%char; "-"%char; " "%char] ++ [h1; h2] ++ [":"%char] ++ [m1; m2] ++
     [":"%char] ++ [s1; s2] ++ [" "%char] ++ [p; "M"%char] in
  normalizeDateTime (string_of_list_ascii l) = string_of_list_ascii l.
Proof.
  intros Hc1 Hc2 Hy1 Hy2 Hy3 Hy4 Hh1 Hh2 Hm1 Hm2 Hs1 Hs2 Hp Hmon l. subst l.
  cbn in Hmon.
  destruct Hp as [-> | ->];
  repeat destruct Hmon as [<- | Hmon]; try contradiction;
  unfold normalizeDateTime; rewrite list_ascii_of_string_of_list_ascii; cbn [app list_ascii_of_string];
  (rewrite TrimSpace_keep by (exact Hc1 || reflexivity));
  cbn [rev app endsWithHM]; digit_facts; cbn; digit_facts; reflexivity.
Qed.

(** [normalizeDateTime] leaves a time that already has seconds unchanged. *)
Theorem normalizeDateTime_keeps_seconds (y mo d h mi s : Z) :
  0 <= y < 10000 -> 1 <= mo <= 12 -> 1 <= d <= 31 -> 0 <= h < 24 -> 0 <= mi < 60 -> 0 <= s < 60 ->
  normalizeDateTime (string_of_list_ascii (formatDT y mo d h mi s)) =
  string_of_list_ascii (formatDT y mo d h mi s).
Proof.
  intros Hy Hm Hd Hh Hmi Hs.
  unfold formatDT.
  set (hr := (if h mod 12 =? 0 then 12 else h mod 12)%Z).
  assert (Hhr : 1 <= hr <= 12).
  { subst hr. destruct (Z.eqb_spec (h mod 12) 0); Z.div_mod_to_equations; lia. }
  rewrite (appendInt_2 d), (appendInt_4 y), (appendInt_2 hr), (appendInt_2 mi), (appendInt_2 s) by lia.
  unfold pad2, pad4.
  destruct (digitChar_ok (d / 10)) as [D1 _]; [Z.div_mod_to_equations; lia|].
  destruct (digitChar_ok (d mod 10)) as [D2 _]; [Z.div_mod_to_equations; lia|].
  destruct (digitChar_ok (y / 1000)) as [Y1 _]; [Z.div_mod_to_equations; lia|].
  destruct (digitChar_ok (y / 100 mod 10)) as [Y2 _]; [Z.div_mod_to_equations; lia|].
  destruct (digitChar_ok (y / 10 mod 10)) as [Y3 _]; [Z.div_mod_to_equations; lia|].
  destruct (digitChar_ok (y mod 10)) as [Y4 _]; [Z.div_mod_to_equations; lia|].
  destruct (digitChar_ok (hr / 10)) as [H1 _]; [Z.div_mod_to_equations; lia|].
  destruct (digitChar_ok (hr mod 10)) as [H2 _]; [Z.div_mod_to_equations; lia|].
  destruct (digitChar_ok (mi / 10)) as [M1 _]; [Z.div_mod_to_equations; lia|].
  destruct (digitChar_ok (mi mod 10)) as [M2 _]; [Z.div_mod_to_equations; lia|].
  destruct (digitChar_ok (s / 10)) as [S1 _]; [Z.div_mod_to_equations; lia|].
  destruct (digitChar_ok (s mod 10)) as [S2 _]; [Z.div_mod_to_equations; lia|].
  destruct (12 <=? h);
  apply normalize_seconds_core; auto using monthName_in.
Qed.

Lemma normalizeDateTime_tableTime_parses_witness :
  parseTime (normalizeDateTime (string_of_list_ascii (tableTime 2025 10 19 13 5))) =
  Some (dateNs 2025 10 19 13 5 0 0).
Proof. apply normalizeDateTime_tableTime_parses; try lia. split; [lia | vm_compute; discriminate]. Defined.

Lemma normalizeDateTime_keeps_seconds_witness :
  normalizeDateTime (string_of_list_ascii (formatDT 2025 10 19 9 13 0)) =
  string_of_list_ascii (formatDT 2025 10 19 9 13 0).
Proof. apply normalizeDateTime_keeps_seconds; lia. Defined.

Lemma TrimSpace_keep' (l : list ascii) (c : ascii) :
  hd_error l = Some c -> isDigitC c = true -> hd_error (rev l) = Some "M"%char ->
  TrimSpace l = l.
Proof.
  intros H1 Hc H2. destruct l as [|c' r]; [discriminate|].
  injection H1 as <-. apply TrimSpace_keep; assumption.
Qed.

Lemma TrimSpace_tableTime (y mo d h mi : Z) :
  1 <= d <= 31 -> TrimSpace (tableTime y mo d h mi) = tableTime y mo d h mi.
Proof.
  intros Hd.
  destruct (digitChar_ok (d / 10)) as [D1 _]; [Z.div_mod_to_equations; lia|].
  apply TrimSpace_keep' with (c := digitChar (d / 10)); [| exact D1 |].
  - unfold tableTime. rewrite appendInt_2 by lia. reflexivity.
  - unfold tableTime. destruct (12 <=? h); rewrite !app_assoc, rev_app_distr; reflexivity.
Qed.

Lemma tableTime_parses (y mo d h mi : Z) :
  0 <= y < 10000 -> 1 <= mo <= 12 -> 1 <= d <= daysIn mo y -> 0 <= h < 24 -> 0 <= mi < 60 ->
  parseTime (normalizeDateTime (string_of_list_ascii (tableTime y mo d h mi))) =
  Some (dateNs y mo d h mi 0 0).
Proof.
  intros Hy Hm Hd Hh Hmi.
  pose proof (daysIn_range mo y Hm) as Hdi.
  unfold parseTime. rewrite normalize_tableTime by lia.
  apply parseTimeL_formatDT; lia.
Qed.

(** A table row without a bulletin link, or whose bulletin URL gives no timestamp, gets the time of its first cell: for a table time it parses to that minute with zero seconds. *)
Theorem parseRow_table_time (r : row) (y mo d h mi : Z) :
  nth 0 (cells r) ""%string = string_of_list_ascii (tableTime y mo d h mi) ->
  0 <= y < 10000 -> 1 <= mo <= 12 -> 1 <= d <= daysIn mo y -> 0 <= h < 24 -> 0 <= mi < 60 ->
  (href r = ""%string \/ extractDateTimeFromURL (Bulletin (parseRow r)) = None) ->
  parseTime (DateTime (parseRow r)) = Some (dateNs y mo d h mi 0 0).
Proof.
  intros Hc Hy Hm Hd Hh Hmi Hb.
  pose proof (daysIn_range mo y Hm) as Hdi.
  assert (Hdate : normalizeDateTime (string_of_list_ascii (TrimSpace (cellText r 0))) =
                  normalizeDateTime (string_of_list_ascii (tableTime y mo d h mi))).
  { unfold cellText. rewrite Hc, list_ascii_of_string_of_list_ascii, TrimSpace_tableTime by lia.
    reflexivity. }
  rewrite <- tableTime_parses by lia. rewrite <- Hdate.
  destruct Hb as [Hb | Hb].
  - unfold parseRow. rewrite Hb. reflexivity.
  - revert Hb. unfold parseRow; cbn [DateTime Bulletin].
    destruct (String.eqb (href r) ""); [reflexivity|].
    destruct (String.eqb _ ""); [reflexivity|].
    intros ->. reflexivity.
Qed.

Lemma eachRow_spec (rows : list row) (i n : Z) :
  eachRow i n rows =
  map parseRow (filter (fun r => (6 <=? length (cells r))%nat) (firstn (Z.to_nat (n - i)) rows)).
Proof.
  revert i. induction rows as [|r rs IH]; intros i.
  - rewrite firstn_nil. reflexivity.
  - cbn [eachRow]. destruct (Z.leb_spec n i).
    + replace (Z.to_nat (n - i)) with O by lia. reflexivity.
    + replace (Z.to_nat (n - i)) with (S (Z.to_nat (n - (i + 1)))) by lia.
      cbn [firstn filter]. rewrite IH.
      destruct (Nat.ltb_spec (length (cells r)) 6) as [L|L].
      * replace (6 <=? length (cells r))%nat with false by (symmetry; apply Nat.leb_gt; lia).
        reflexivity.
      * replace (6 <=? length (cells r))%nat with true by (symmetry; apply Nat.leb_le; lia).
        reflexivity.
Qed.

(** [parseFirstN] builds one quake from each of the first [n] rows that has at least six cells, in order, and nothing from the other rows. *)
Theorem parseFirstN_rows (rows : list row) (n : Z) :
  parseFirstN rows n =
  map parseRow (filter (fun r => (6 <=? length (cells r))%nat) (firstn (Z.to_nat n) rows)).
Proof. unfold parseFirstN. rewrite eachRow_spec. rewrite Z.sub_0_r. reflexivity. Qed.

Lemma parseRow_table_time_witness :
  parseTime (DateTime (parseRow (mkRow ["19 October 2025 - 09:13 AM"; "10.1"; "125.0"; "010"; "4.2";
     "012 km N 45 E of Cebu"]%string ""%string))) = Some (dateNs 2025 10 19 9 13 0 0).
Proof.
  apply (parseRow_table_time _ 2025 10 19 9 13); try lia.
  - reflexivity.
  - split; [lia | vm_compute; discriminate].
  - left. reflexivity.
Defined.

Lemma parseRow_dateTime_link (r : row) :
  href r <> ""%string ->
  DateTime (parseRow r) =
  match extractDateTimeFromURL (Bulletin (parseRow r)) with
  | Some parsed => parsed
  | None => normalizeDateTime (string_of_list_ascii (TrimSpace (cellText r 0)))
  end.
Proof.
  intros Hl. unfold parseRow; cbn [DateTime Bulletin].
  destruct (String.eqb_spec (href r) ""); [contradiction|]. reflexivity.
Qed.

(** A table row whose bulletin URL carries a valid timestamp gets that time plus eight hours, to the second, whatever its first cell says. *)
Theorem parseRow_bulletin_time (r : row) (y mo d h mi s : Z) :
  href r <> ""%string ->
  findStamp (list_ascii_of_string (Bulletin (parseRow r))) = Some (y, mo, d, h, mi, s) ->
  validStamp y mo d h mi s = true ->
  (let '(y', _, _, _) := addHours8 y mo d h in y' <= 9999) ->
  parseTime (DateTime (parseRow r)) = Some (dateNs y mo d h mi s 0 + 8 * 3600 * 1000000000).
Proof.
  intros Hl Hf V Hy. rewrite (parseRow_dateTime_link r Hl).
  pose proof (findStamp_nonneg _ _ _ _ _ _ _ Hf) as (Hy0 & Hh0 & Hmi0 & Hs0).
  unfold extractDateTimeFromURL. rewrite Hf, V.
  unfold validStamp in V. rewrite !andb_true_iff, !Z.leb_le, !Z.ltb_lt in V.
  destruct V as ((((((V1 & V2) & V3) & V4) & V5) & V6) & V7).
  pose proof (addHours8_ok y mo d h ltac:(lia) ltac:(lia) ltac:(lia)) as A.
  destruct (addHours8 y mo d h) as [[[y' mo'] d'] h'].
  destruct A as (A1 & A2 & A3 & A4 & A5).
  unfold parseTime. rewrite list_ascii_of_string_of_list_ascii.
  rewrite parseTimeL_formatDT by lia. rewrite A5. reflexivity.
Qed.

Lemma parseRow_bulletin_time_witness :
  parseTime (DateTime (parseRow (mkRow ["19 October 2025 - 09:13 AM"; "10.1"; "125.0"; "010"; "4.2";
     "012 km N 45 E of Cebu"]%string
     "2025_Earthquake_Information/October/2025_1019_011342_B1.html"%string))) =
  Some (dateNs 2025 10 19 1 13 42 0 + 8 * 3600 * 1000000000).
Proof.
  apply parseRow_bulletin_time.
  - discriminate.
  - vm_compute. reflexivity.
  - vm_compute. reflexivity.
  - vm_compute. discriminate.
Defined.
